(** * ISS_Analysis_Spark: sample source, enrichment stage and windowed statistics

    A shallow embedding of

    - [src/utils/iss_data_fetcher.py]     (class [ISSDataFetcher]),
    - [src/streaming/iss_data_generator.py] (class [ISSDataGenerator]),
    - [src/streaming/iss_spark_streaming.py] (class [ISSSparkStreaming]),

    followed by the properties of the pipeline specification.

    Python dictionaries and Spark rows are finite maps with string keys.
    Python's [float] arithmetic and the functions of the [math] module are
    an interface ([PyFloat]); everything that follows is stated over an
    arbitrary implementation of it, and the purely numerical facts are
    proved for its exact-real implementation ([PyFloat_R]). *)

From Stdlib Require Import ZArith String List Lia Reals Lra.
From stdpp Require Import base option list gmap strings fin_maps.

Local Open Scope string_scope.
Local Open Scope list_scope.
Local Open Scope Z_scope.

(** ** The numeric interface

    The operations the sources apply to Python floats and to Spark doubles.
    [of_int] is the implicit int-to-float conversion of mixed arithmetic
    ([2 * x], [R * c], [distance / time_diff]); [of_decimal m k] is the
    decimal literal [m * 10^-k] as written in the source ([48.8566] is
    [of_decimal 488566 4]).

    Every operation is a total function. Where Python raises instead
    ([math.sqrt] of a negative number, an int too large to convert), the
    sources have no handler and the run ends; the properties are about the
    runs in which that does not happen. *)

Class PyFloat (F : Type) := {
  of_int : Z -> F;
  of_decimal : Z -> Z -> F;
  fadd : F -> F -> F;
  fsub : F -> F -> F;
  fmul : F -> F -> F;
  fdiv : F -> F -> F;
  (* [x ** n] for an int exponent *)
  fpow : F -> Z -> F;
  (* math.radians, math.sin, math.cos, math.sqrt, math.atan2 *)
  radians : F -> F;
  sin : F -> F;
  cos : F -> F;
  sqrt : F -> F;
  atan2 : F -> F -> F;
  (* the builtin round(x, ndigits) *)
  round : F -> Z -> F;
  (* [x > y] on floats; no float is greater than itself *)
  fgt : F -> F -> bool;
  fgt_irrefl : forall x, fgt x x = false;
  (* Spark SQL on doubles: [>=] and [round(col, scale)] *)
  sql_ge : F -> F -> bool;
  spark_round : F -> Z -> F;
}.

Declare Scope pyfloat_scope.
Delimit Scope pyfloat_scope with flt.
Infix "+" := fadd : pyfloat_scope.
Infix "-" := fsub : pyfloat_scope.
Infix "*" := fmul : pyfloat_scope.
Infix "/" := fdiv : pyfloat_scope.
Infix "**" := fpow (at level 30, right associativity) : pyfloat_scope.

(** ** Python values held in the position dictionary *)

Inductive pyval (F : Type) : Type :=
  | PyFloatV (x : F)
  | PyInt (n : Z)
  | PyStr (s : string).
Arguments PyFloatV {F} x.
Arguments PyInt {F} n.
Arguments PyStr {F} s.

(** [d[k]] read as a float, as an int: the sources store nothing else under
    the keys they read this way. [None] stands for the [KeyError] of a
    missing key, which no caller modelled here catches. *)
Definition get_float {F} (d : gmap string (pyval F)) (k : string) : option F :=
  match d !! k with
  | Some (PyFloatV x) => Some x
  | _ => None
  end.

Definition get_int {F} (d : gmap string (pyval F)) (k : string) : option Z :=
  match d !! k with
  | Some (PyInt n) => Some n
  | _ => None
  end.

(** Truth value of an [Optional[Dict]]: [None] and the empty dict are false. *)
Definition truthy {F} (p : option (gmap string (pyval F))) : bool :=
  match p with
  | None => false
  | Some d => negb (bool_decide (d = ∅))
  end.

(** ** src/utils/iss_data_fetcher.py *)

Module ISSDataFetcher.
Section Fetcher.
Context {F : Type} `{PyFloat F}.

Record t := { max_retries : Z }.

(** [__init__(self, max_retries: int = 3)] *)
Definition default_max_retries : Z := 3.
Definition init (max_retries : Z) : t := {| max_retries := max_retries |}.
Definition init_default : t := init default_max_retries.

(** What one [requests.get] of [fetch_position] comes to: a
    [requests.RequestException] (from [get] or [raise_for_status]), or a
    decoded payload with its ['message'] and, already converted by
    [float(...)] and [int(...)], the position and the timestamp. A payload
    without these fields raises an exception that [fetch_position] does
    not catch; such payloads are not modelled. *)
Inductive attempt_outcome :=
  | RequestException
  | Response (message : string) (latitude longitude : F) (timestamp : Z).

(** The dictionary literal returned on success; [now] is
    [datetime.now().isoformat()]. *)
Definition position_dict (latitude longitude : F) (timestamp : Z) (now : string)
  : gmap string (pyval F) :=
  <["latitude" := PyFloatV latitude]>
  (<["longitude" := PyFloatV longitude]>
  (<["timestamp" := PyInt timestamp]>
  (<["fetch_time" := PyStr now]>
  (<["altitude_km" := PyFloatV (of_decimal 4080 1)]> ∅)))).

(** The effects of one call: the requests made, and the [time.sleep]
    durations in order. *)
Record fetch_result := {
  fetched : option (gmap string (pyval F));
  requests_made : nat;
  sleeps : list Z;
}.

(** [for attempt in range(self.max_retries)], from [attempt] on, with
    [remaining] iterations left. [net k] is the outcome of the request of
    attempt [k]. *)
Fixpoint fetch_loop (max_retries : Z) (net : nat -> attempt_outcome) (now : string)
    (remaining : nat) (attempt : nat) : fetch_result :=
  match remaining with
  | O => {| fetched := None; requests_made := 0; sleeps := [] |}
  | S remaining' =>
    match net attempt with
    | Response message latitude longitude timestamp =>
      if String.eqb message "success" then
        {| fetched := Some (position_dict latitude longitude timestamp now);
           requests_made := 1; sleeps := [] |}
      else
        let r := fetch_loop max_retries net now remaining' (S attempt) in
        {| fetched := fetched r; requests_made := S (requests_made r);
           sleeps := sleeps r |}
    | RequestException =>
      if Z.eqb (Z.of_nat attempt) (max_retries - 1) then
        {| fetched := None; requests_made := 1; sleeps := [] |}
      else
        let wait_time := 2 ^ Z.of_nat attempt in
        let r := fetch_loop max_retries net now remaining' (S attempt) in
        {| fetched := fetched r; requests_made := S (requests_made r);
           sleeps := wait_time :: sleeps r |}
    end
  end.

(** [fetch_position(self)] *)
Definition fetch_position (self : t) (net : nat -> attempt_outcome) (now : string)
  : fetch_result :=
  fetch_loop (max_retries self) net now (Z.to_nat (max_retries self)) 0.

(** The local [distance] of [calculate_velocity]: the haversine formula
    on the four coordinates. *)
Definition haversine_distance (lat1 lon1 lat2 lon2 : F) : F :=
  let R := of_int 6371 in
  let lat1 := radians lat1 in
  let lon1 := radians lon1 in
  let lat2 := radians lat2 in
  let lon2 := radians lon2 in
  let dlat := (lat2 - lat1)%flt in
  let dlon := (lon2 - lon1)%flt in
  let a := (sin (dlat / of_int 2) ** 2
            + cos lat1 * cos lat2 * sin (dlon / of_int 2) ** 2)%flt in
  let c := (of_int 2 * atan2 (sqrt a) (sqrt (of_int 1 - a)))%flt in
  (R * c)%flt.

(** [calculate_velocity(self, lat1, lon1, lat2, lon2, time_diff)];
    the caller passes an int [time_diff]. *)
Definition calculate_velocity (lat1 lon1 lat2 lon2 : F) (time_diff : Z) : F :=
  let distance := haversine_distance lat1 lon1 lat2 lon2 in
  if 0 <? time_diff then (distance / of_int time_diff)%flt
  else of_decimal 0 1.
End Fetcher.
End ISSDataFetcher.

(** ** src/streaming/iss_data_generator.py *)

Module ISSDataGenerator.
Section Generator.
Context {F : Type} `{PyFloat F}.

(** The instance attributes set by [__init__]. *)
Record t := {
  output_dir : string;
  interval : Z;
  fetcher : ISSDataFetcher.t;
  previous_position : option (gmap string (pyval F));
  paris_lat : F;
  paris_lon : F;
}.

(** [__init__(self, output_dir, interval=5)]; [os.makedirs] is an effect
    on the file system that nothing below reads. *)
Definition init (output_dir : string) (interval : Z) : t :=
  {| output_dir := output_dir;
     interval := interval;
     fetcher := ISSDataFetcher.init_default;
     previous_position := None;
     paris_lat := of_decimal 488566 4;
     paris_lon := of_decimal 23522 4 |}.

Definition set_previous_position (self : t) (p : gmap string (pyval F)) : t :=
  {| output_dir := output_dir self;
     interval := interval self;
     fetcher := fetcher self;
     previous_position := Some p;
     paris_lat := paris_lat self;
     paris_lon := paris_lon self |}.

(** The generator with another reference coordinate in its two
    [paris_*] attributes. *)
Definition set_reference (self : t) (lat lon : F) : t :=
  {| output_dir := output_dir self;
     interval := interval self;
     fetcher := fetcher self;
     previous_position := previous_position self;
     paris_lat := lat;
     paris_lon := lon |}.

(** [distance_to_paris(self, lat, lon)] *)
Definition distance_to_paris (self : t) (lat lon : F) : F :=
  let R := of_int 6371 in
  let lat1 := radians lat in
  let lon1 := radians lon in
  let lat2 := radians (paris_lat self) in
  let lon2 := radians (paris_lon self) in
  let dlat := (lat2 - lat1)%flt in
  let dlon := (lon2 - lon1)%flt in
  let a := (sin (dlat / of_int 2) ** 2
            + cos lat1 * cos lat2 * sin (dlon / of_int 2) ** 2)%flt in
  let c := (of_int 2 * atan2 (sqrt a) (sqrt (of_int 1 - a)))%flt in
  round (R * c)%flt 2.

(** The body of [if position:] in [generate_stream], up to the file
    write: the three keys added to [position]. The result is the mutated
    dictionary; [None] is an uncaught exception. *)
Definition enrich (self : t) (position : gmap string (pyval F))
  : option (gmap string (pyval F)) :=
  position ←
    (if truthy (previous_position self) then
       prev ← previous_position self;
       latitude ← get_float position "latitude";
       prev_latitude ← get_float prev "latitude";
       let position :=
         if fgt latitude prev_latitude
         then <["orbit_phase" := PyStr "ASCENDING"]> position
         else <["orbit_phase" := PyStr "DESCENDING"]> position in
       timestamp ← get_int position "timestamp";
       prev_timestamp ← get_int prev "timestamp";
       let time_diff := timestamp - prev_timestamp in
       prev_latitude ← get_float prev "latitude";
       prev_longitude ← get_float prev "longitude";
       latitude ← get_float position "latitude";
       longitude ← get_float position "longitude";
       let velocity :=
         ISSDataFetcher.calculate_velocity
           prev_latitude prev_longitude latitude longitude time_diff in
       Some (<["velocity_km_s" := PyFloatV (round velocity 4)]> position)
     else
       Some (<["orbit_phase" := PyStr "UNKNOWN"]>
               (<["velocity_km_s" := PyFloatV (of_decimal 0 1)]> position)));
  latitude ← get_float position "latitude";
  longitude ← get_float position "longitude";
  Some (<["distance_to_paris_km" :=
            PyFloatV (distance_to_paris self latitude longitude)]> position).

(** What one iteration of the [while] loop reads from outside: the
    network, and the wall clock twice ([datetime.now()] in the fetcher
    for ['fetch_time'], and in the loop for the file name). *)
Record cycle := {
  net : nat -> @ISSDataFetcher.attempt_outcome F;
  fetch_now : string;
  file_now : string;
}.

(** A file written by [json.dump]: directory, name, and the dictionary
    dumped. The write itself is taken to succeed. *)
Record file := {
  file_dir : string;
  file_name : string;
  file_content : gmap string (pyval F);
}.

(** The loop's state: the instance, the local [data_points], and the
    files written so far, oldest first. The progress lines printed and
    the time slept are not kept. *)
Record loop_state := {
  self : t;
  data_points : Z;
  files : list file;
}.

(** One iteration of [while (time.time() - start_time) < duration]. *)
Definition poll_cycle (st : loop_state) (c : cycle) : option loop_state :=
  let position :=
    ISSDataFetcher.fetched
      (ISSDataFetcher.fetch_position (fetcher (self st)) (net c) (fetch_now c)) in
  if truthy position then
    position ← position;
    position ← enrich (self st) position;
    let timestamp := file_now c in
    let filename := "iss_data_" +:+ timestamp +:+ ".json" in
    Some {| self := set_previous_position (self st) position;
            data_points := data_points st + 1;
            files := files st ++
              [{| file_dir := output_dir (self st);
                  file_name := filename;
                  file_content := position |}] |}
  else Some st.

(** The loop over the poll cycles the duration allows. *)
Fixpoint run_cycles (st : loop_state) (cycles : list cycle) : option loop_state :=
  match cycles with
  | [] => Some st
  | c :: cycles => st ← poll_cycle st c; run_cycles st cycles
  end.

(** [generate_stream(self, duration)]: [data_points = 0], then the loop. *)
Definition generate_stream (self : t) (cycles : list cycle) : option loop_state :=
  run_cycles {| self := self; data_points := 0; files := [] |} cycles.
End Generator.
End ISSDataGenerator.

(** ** src/streaming/iss_spark_streaming.py

    Rows are maps from column names to SQL values; a column expression is
    a function of the row; a (streaming) DataFrame is the list of its rows
    in arrival order. *)

Module ISSSparkStreaming.
Section Streaming.
Context {F : Type} `{PyFloat F}.

Inductive sqlval :=
  | SqlNull
  | SqlBool (b : bool)
  | SqlDouble (x : F)
  | SqlLong (n : Z)
  | SqlString (s : string)
  (* seconds since the epoch *)
  | SqlTimestamp (t : Z).

Definition Column : Type := gmap string sqlval -> sqlval.

Inductive DataType := StringType | DoubleType | LongType.

(** [_define_schema]: every field is nullable. *)
Definition _define_schema : list (string * DataType) :=
  [ ("latitude", DoubleType);
    ("longitude", DoubleType);
    ("timestamp", LongType);
    ("fetch_time", StringType);
    ("altitude_km", DoubleType);
    ("velocity_km_s", DoubleType);
    ("distance_to_paris_km", DoubleType);
    ("orbit_phase", StringType) ].

(** A JSON value read at a schema type; what does not fit is null. *)
Definition from_json (ty : DataType) (v : option (pyval F)) : sqlval :=
  match ty, v with
  | DoubleType, Some (PyFloatV x) => SqlDouble x
  | DoubleType, Some (PyInt n) => SqlDouble (of_int n)
  | LongType, Some (PyInt n) => SqlLong n
  | StringType, Some (PyStr s) => SqlString s
  | _, _ => SqlNull
  end.

(** [read_stream]: one row per JSON file, with the schema's columns. *)
Definition read_row (schema : list (string * DataType))
    (json : gmap string (pyval F)) : gmap string sqlval :=
  foldr (fun field row => <[field.1 := from_json field.2 (json !! field.1)]> row)
        ∅ schema.

Definition read_stream (files : list (gmap string (pyval F)))
  : list (gmap string sqlval) :=
  map (read_row _define_schema) files.

(** The functions of [pyspark.sql.functions] that [process_stream] uses.
    [col] of a name the row lacks stands for null; the schema gives every
    row the columns read here. *)
Definition col (name : string) : Column :=
  fun row => default SqlNull (row !! name).

Definition lit_int (n : Z) : Column := fun _ => SqlLong n.
Definition lit_str (s : string) : Column := fun _ => SqlString s.

Definition to_timestamp (c : Column) : Column :=
  fun row =>
    match c row with
    | SqlLong n => SqlTimestamp n
    | SqlTimestamp t => SqlTimestamp t
    | _ => SqlNull
    end.

(** [c1 >= c2] on a double column and a double or integer one; null when
    either side is. *)
Definition col_ge (c1 c2 : Column) : Column :=
  fun row =>
    match c1 row, c2 row with
    | SqlDouble x, SqlDouble y => SqlBool (sql_ge x y)
    | SqlDouble x, SqlLong n => SqlBool (sql_ge x (of_int n))
    | _, _ => SqlNull
    end.

(** [when(cond, value)] is the list of its branches; [.otherwise(value)]
    closes it. A branch is taken when its condition is true (not null). *)
Definition when (cond value : Column) : list (Column * Column) :=
  [(cond, value)].

Fixpoint otherwise (branches : list (Column * Column)) (value : Column) : Column :=
  fun row =>
    match branches with
    | [] => value row
    | (cond, v) :: branches =>
      match cond row with
      | SqlBool true => v row
      | _ => otherwise branches value row
      end
    end.

Definition spark_round_col (c : Column) (scale : Z) : Column :=
  fun row =>
    match c row with
    | SqlDouble x => SqlDouble (spark_round x scale)
    | SqlLong n => SqlLong n
    | _ => SqlNull
    end.

Definition withColumn (name : string) (c : Column) (df : list (gmap string sqlval))
  : list (gmap string sqlval) :=
  map (fun row => <[name := c row]> row) df.

(** [process_stream(self, df)] *)
Definition process_stream (df : list (gmap string sqlval)) : list (gmap string sqlval) :=
  let df := withColumn "event_time" (to_timestamp (col "timestamp")) df in
  let df := withColumn "hemisphere_ns"
              (otherwise (when (col_ge (col "latitude") (lit_int 0)) (lit_str "North"))
                         (lit_str "South")) df in
  let df := withColumn "hemisphere_ew"
              (otherwise (when (col_ge (col "longitude") (lit_int 0)) (lit_str "East"))
                         (lit_str "West")) df in
  let df := withColumn "latitude" (spark_round_col (col "latitude") 4) df in
  let df := withColumn "longitude" (spark_round_col (col "longitude") 4) df in
  let df := withColumn "velocity_km_s" (spark_round_col (col "velocity_km_s") 4) df in
  df.

(** The configuration [compute_statistics] and [write_stream] hand to
    the engine: [withWatermark("event_time", "10 seconds")],
    [window(col("event_time"), "1 minute")], and output mode "append". *)
Definition watermark_delay : Z := 10.
Definition window_duration : Z := 60.
Definition output_mode : string := "append".

(** The streams [run_analysis] hands to the writers: the processed rows,
    the windowed statistics, and the columns selected for the console. *)
Inductive stream :=
  | processed_stream
  | stats_stream
  | console_selection.

(** A query as [writeStream ... .start()] configures it. *)
Record StreamingQuery := {
  query_source : stream;
  query_mode : string;
  query_format : string;
  query_options : gmap string string;
  query_name : string;
}.

(** [write_stream(self, df, output_path, query_name, output_mode)] *)
Definition write_stream (df : stream) (output_path query_name output_mode : string)
  : StreamingQuery :=
  let checkpoint_path := "/opt/spark-data/checkpoints/" +:+ query_name in
  {| query_source := df;
     query_mode := output_mode;
     query_format := "json";
     query_options :=
       <["cleanSource" := "delete"]>
         (<["checkpointLocation" := checkpoint_path]>
            (<["path" := output_path]> ∅));
     query_name := query_name |}.

(** [write_to_console(self, df, query_name, output_mode)] *)
Definition write_to_console (df : stream) (query_name output_mode : string)
  : StreamingQuery :=
  {| query_source := df;
     query_mode := output_mode;
     query_format := "console";
     query_options := <["truncate" := "false"]> ∅;
     query_name := query_name |}.

(** The list [queries] that [run_analysis(self, input_path, output_path,
    console_output)] builds and then waits on. *)
Definition run_analysis (input_path output_path : string) (console_output : bool)
  : list StreamingQuery :=
  let query1 := write_stream processed_stream (output_path +:+ "/processed")
                  "iss_processed_data" "append" in
  let queries := [query1] in
  let query2 := write_stream stats_stream (output_path +:+ "/statistics")
                  "iss_statistics" "append" in
  let queries := queries ++ [query2] in
  if console_output then
    let query3 := write_to_console console_selection "iss_console_output" "append" in
    queries ++ [query3]
  else queries.
End Streaming.
End ISSSparkStreaming.

(** ** The windowed aggregator

    [compute_statistics] and [write_stream] only configure the engine that
    windows the stream; the engine itself is not part of the sources. The
    specification describes it (section 4.4) as a state machine over an
    accumulator map keyed by window start and a watermark that never moves
    backward; that description is what this module follows, with the
    window size and the lateness the sources configure. *)

Module WindowedAggregator.
Section Aggregator.
Context {F : Type} `{PyFloat F}.

Definition window_size : Z := ISSSparkStreaming.window_duration.
Definition allowed_lateness : Z := ISSSparkStreaming.watermark_delay.

(** The fields of an enriched record that the aggregation reads. *)
Record EnrichedRecord := {
  event_time : Z;
  latitude : F;
  longitude : F;
  velocity_km_s : F;
}.

Record accumulator := {
  count : Z;
  sum_latitude : F;
  sum_longitude : F;
  sum_velocity : F;
  running_max : F;
  running_min : F;
  sum_squares : F;
}.

Record WindowStats := {
  window_start : Z;
  window_end : Z;
  data_points : Z;
  avg_latitude : F;
  avg_longitude : F;
  avg_velocity : F;
  max_velocity : F;
  min_velocity : F;
  velocity_stddev : F;
}.

Record state := {
  accumulators : gmap Z accumulator;
  max_seen_event_time : option Z;
  watermark : Z;
  late_dropped : Z;
}.

(** No record seen; the watermark starts at the epoch. *)
Definition init : state :=
  {| accumulators := ∅; max_seen_event_time := None;
     watermark := 0; late_dropped := 0 |}.

(** Step 1: [floor(t / window_size) * window_size]. *)
Definition window_of (t : Z) : Z := t / window_size * window_size.

Definition closed (wm : Z) (start : Z) : Prop := start + window_size <= wm.

#[global] Instance closed_dec wm start : Decision (closed wm start).
Proof. unfold closed. apply _. Defined.

Definition first_point (r : EnrichedRecord) : accumulator :=
  {| count := 1;
     sum_latitude := latitude r;
     sum_longitude := longitude r;
     sum_velocity := velocity_km_s r;
     running_max := velocity_km_s r;
     running_min := velocity_km_s r;
     sum_squares := (velocity_km_s r * velocity_km_s r)%flt |}.

Definition add_point (a : accumulator) (r : EnrichedRecord) : accumulator :=
  {| count := count a + 1;
     sum_latitude := (sum_latitude a + latitude r)%flt;
     sum_longitude := (sum_longitude a + longitude r)%flt;
     sum_velocity := (sum_velocity a + velocity_km_s r)%flt;
     running_max :=
       if sql_ge (velocity_km_s r) (running_max a)
       then velocity_km_s r else running_max a;
     running_min :=
       if sql_ge (running_min a) (velocity_km_s r)
       then velocity_km_s r else running_min a;
     sum_squares := (sum_squares a + velocity_km_s r * velocity_km_s r)%flt |}.

(** Step 4: update, or create, the accumulator of the record's window. *)
Definition accumulate (accs : gmap Z accumulator) (r : EnrichedRecord)
  : gmap Z accumulator :=
  let start := window_of (event_time r) in
  match accs !! start with
  | Some a => <[start := add_point a r]> accs
  | None => <[start := first_point r]> accs
  end.

(** The statistics of a closed window, rounded to 4 decimals; the
    standard deviation of a single point is 0. *)
Definition stats_of (start : Z) (a : accumulator) : WindowStats :=
  let n := of_int (count a) in
  {| window_start := start;
     window_end := start + window_size;
     data_points := count a;
     avg_latitude := spark_round (sum_latitude a / n)%flt 4;
     avg_longitude := spark_round (sum_longitude a / n)%flt 4;
     avg_velocity := spark_round (sum_velocity a / n)%flt 4;
     max_velocity := spark_round (running_max a) 4;
     min_velocity := spark_round (running_min a) 4;
     velocity_stddev :=
       if count a =? 1 then of_decimal 0 1
       else spark_round
              (sqrt ((sum_squares a - sum_velocity a * sum_velocity a / n)
                     / of_int (count a - 1)))%flt 4 |}.

(** Modelled from the spec: the windowing engine (watermark, tumbling
    windows, emission in append mode) that [compute_statistics] and
    [write_stream] configure and that is missing from the sources. Steps 1
    to 5 of section 4.4 for one incoming record: the new state, and the
    statistics emitted on this advance of the watermark. Step 2 is read
    with the glossary: the watermark is the largest event time seen minus
    the allowed lateness, and it never moves backward. *)
Definition step (s : state) (r : EnrichedRecord) : state * list WindowStats :=
  let t := event_time r in
  let start := window_of t in
  let max_seen :=
    match max_seen_event_time s with
    | Some m => Z.max m t
    | None => t
    end in
  let wm := Z.max (watermark s) (max_seen - allowed_lateness) in
  let late := bool_decide (closed wm start) in
  let accs := if late then accumulators s else accumulate (accumulators s) r in
  let done := filter (fun kv => closed wm kv.1) accs in
  let open := filter (fun kv => ¬ closed wm kv.1) accs in
  ({| accumulators := open;
      max_seen_event_time := Some max_seen;
      watermark := wm;
      late_dropped := if late then late_dropped s + 1 else late_dropped s |},
   map (fun kv => stats_of kv.1 kv.2) (map_to_list done)).

(** The run over the records in arrival order: after each record, the
    state reached and what was emitted then. *)
Fixpoint run (s : state) (records : list EnrichedRecord)
  : list (state * list WindowStats) :=
  match records with
  | [] => []
  | r :: records => let sr := step s r in sr :: run sr.1 records
  end.

(** Everything the statistics sink has received, oldest first. *)
Definition emitted (trace : list (state * list WindowStats)) : list WindowStats :=
  concat (map snd trace).
End Aggregator.
End WindowedAggregator.

(** ** The exact-real implementation of the numeric interface

    Floats read as the real numbers they stand for, every operation exact:
    what the formulas compute when rounding error is left out. *)

Abbreviation sinR := Rtrigo_def.sin (only parsing).
Abbreviation cosR := Rtrigo_def.cos (only parsing).
Abbreviation tanR := Rtrigo1.tan (only parsing).
Abbreviation sqrtR := R_sqrt.sqrt (only parsing).
Abbreviation atanR := Ratan.atan (only parsing).
Abbreviation acosR := Ratan.acos (only parsing).

Module Exact.
Local Open Scope R_scope.

(** [math.atan2(y, x)], the angle of the point [(x, y)] in [(-PI, PI]]. *)
Definition atan2_R (y x : R) : R :=
  if Rlt_dec 0 x then atanR (y / x)
  else if Rlt_dec x 0 then
    (if Rle_dec 0 y then atanR (y / x) + PI else atanR (y / x) - PI)
  else if Rlt_dec 0 y then PI / 2
  else if Rlt_dec y 0 then - PI / 2
  else 0.

(** Nearest integer, ties to even: Python's [round]. *)
Definition nearest_even (x : R) : Z :=
  let n := Int_part x in
  let f := x - IZR n in
  if Rlt_dec f (1 / 2) then n
  else if Rlt_dec (1 / 2) f then (n + 1)%Z
  else if Z.even n then n else (n + 1)%Z.

(** Nearest integer, ties away from zero: Spark's [round] (HALF_UP). *)
Definition nearest_half_up (x : R) : Z :=
  if Rle_dec 0 x then Int_part (x + 1 / 2)
  else (- Int_part (- x + 1 / 2))%Z.

Definition round_R (x : R) (ndigits : Z) : R :=
  IZR (nearest_even (x * powerRZ 10 ndigits)) / powerRZ 10 ndigits.

Definition spark_round_R (x : R) (scale : Z) : R :=
  IZR (nearest_half_up (x * powerRZ 10 scale)) / powerRZ 10 scale.

Lemma Rgt_irrefl_bool (x : R) : (if Rgt_dec x x then true else false) = false.
Proof. destruct (Rgt_dec x x) as [Hgt|_]; [|reflexivity]. lra. Qed.

#[export] Instance PyFloat_R : PyFloat R := {|
  of_int := IZR;
  of_decimal m k := IZR m / powerRZ 10 k;
  fadd := Rplus;
  fsub := Rminus;
  fmul := Rmult;
  fdiv := Rdiv;
  fpow := powerRZ;
  radians x := x * (PI / 180);
  sin := sinR;
  cos := cosR;
  sqrt := sqrtR;
  atan2 := atan2_R;
  round := round_R;
  fgt x y := if Rgt_dec x y then true else false;
  fgt_irrefl := Rgt_irrefl_bool;
  sql_ge x y := if Rge_dec x y then true else false;
  spark_round := spark_round_R;
|}.
End Exact.

(** * The vocabulary of the properties *)

Section FetcherVocabulary.
Context {F : Type} `{PyFloat F}.
Import ISSDataFetcher.

(** The waits before attempts [from + 1], ..., [from + n]. *)
Definition backoff (from n : nat) : list Z :=
  map (fun attempt => 2 ^ Z.of_nat attempt) (seq from n).

(** The request raised [RequestException]. *)
Definition failed (o : @attempt_outcome F) : bool :=
  match o with
  | RequestException => true
  | Response _ _ _ _ => false
  end.

(** The request was answered with the message ['success']. *)
Definition is_success (o : @attempt_outcome F) : bool :=
  match o with
  | RequestException => false
  | Response message _ _ _ => String.eqb message "success"
  end.

(** The seconds slept in all. *)
Definition total_sleep (sleeps : list Z) : Z := foldr Z.add 0 sleeps.
End FetcherVocabulary.

Section GeneratorVocabulary.
Context {F : Type} `{PyFloat F}.
Import ISSDataFetcher ISSDataGenerator.

(** The dictionary holds a sample: a float latitude and longitude and an
    int timestamp. *)
Definition has_sample (d : gmap string (pyval F)) (lat lon : F) (ts : Z) : Prop :=
  get_float d "latitude" = Some lat
  /\ get_float d "longitude" = Some lon
  /\ get_int d "timestamp" = Some ts.

(** The record [enrich] makes of a sample. *)
Definition enriched (self : t) (position : gmap string (pyval F))
    (orbit_phase : string) (velocity_km_s : F) (lat lon : F)
  : gmap string (pyval F) :=
  <["distance_to_paris_km" := PyFloatV (distance_to_paris self lat lon)]>
    (<["velocity_km_s" := PyFloatV velocity_km_s]>
       (<["orbit_phase" := PyStr orbit_phase]> position)).

(** The prior-sample slot is empty or holds a sample. *)
Definition prev_ok (p : option (gmap string (pyval F))) : Prop :=
  match p with
  | None => True
  | Some d => exists lat lon ts, has_sample d lat lon ts
  end.

(** What the specification asks of the record [d] made from a sample when
    [prior] is the record before it: the enrichment as a function of
    (current, prior) and of the reference coordinate. *)
Definition record_ok (ref_lat ref_lon : F)
    (prior : option (gmap string (pyval F))) (d : gmap string (pyval F)) : Prop :=
  exists lat lon ts,
    has_sample d lat lon ts
    /\ d !! "distance_to_paris_km"
       = Some (PyFloatV (round (haversine_distance lat lon ref_lat ref_lon) 2))
    /\ match prior with
       | None =>
         d !! "velocity_km_s" = Some (PyFloatV (of_decimal 0 1))
         /\ d !! "orbit_phase" = Some (PyStr "UNKNOWN")
       | Some p =>
         exists plat plon pts,
           has_sample p plat plon pts
           /\ d !! "orbit_phase"
              = Some (PyStr (if fgt lat plat then "ASCENDING" else "DESCENDING"))
           /\ d !! "velocity_km_s"
              = Some (PyFloatV (round (calculate_velocity plat plon lat lon (ts - pts)) 4))
       end.

(** Each record of the list is right for the one before it. *)
Fixpoint session_ok (ref_lat ref_lon : F)
    (prior : option (gmap string (pyval F))) (ds : list (gmap string (pyval F))) : Prop :=
  match ds with
  | [] => True
  | d :: ds => record_ok ref_lat ref_lon prior d /\ session_ok ref_lat ref_lon (Some d) ds
  end.

(** Two maps that agree on every key but ["fetch_time"]. *)
Definition agree_but_fetch_time {V} (m1 m2 : gmap string V) : Prop :=
  forall k, k <> "fetch_time" -> m1 !! k = m2 !! k.

(** Two loop states that differ by what the clock wrote. *)
Definition same_up_to_clock (st1 st2 : @loop_state F) : Prop :=
  fetcher (self st1) = fetcher (self st2)
  /\ paris_lat (self st1) = paris_lat (self st2)
  /\ paris_lon (self st1) = paris_lon (self st2)
  /\ data_points st1 = data_points st2
  /\ match previous_position (self st1), previous_position (self st2) with
     | None, None => True
     | Some p1, Some p2 =>
       agree_but_fetch_time p1 p2 /\ exists lat lon ts, has_sample p1 lat lon ts
     | _, _ => False
     end
  /\ Forall2 (fun f1 f2 => agree_but_fetch_time (file_content f1) (file_content f2))
       (files st1) (files st2).

(** The keys of the dictionary [fetch_position] returns, and the keys
    [generate_stream] adds to it. *)
Definition sample_keys : gset string :=
  {[ "latitude"; "longitude"; "timestamp"; "fetch_time"; "altitude_km" ]}.

Definition enrichment_keys : gset string :=
  {[ "orbit_phase"; "velocity_km_s"; "distance_to_paris_km" ]}.

(** A record as [generate_stream] writes it: the fetched dictionary with
    the three keys added. *)
Definition record_of (lat lon : F) (ts : Z) (now phase : string) (velocity distance : F)
  : gmap string (pyval F) :=
  <["distance_to_paris_km" := PyFloatV distance]>
    (<["velocity_km_s" := PyFloatV velocity]>
       (<["orbit_phase" := PyStr phase]> (position_dict lat lon ts now))).

Definition is_record (d : gmap string (pyval F)) : Prop :=
  exists lat lon ts now phase velocity distance,
    d = record_of lat lon ts now phase velocity distance.

(** The poll cycles of the list whose fetch returned a position, each
    with that position, in order. *)
Definition successful_fetches (fetcher : ISSDataFetcher.t) (cycles : list (@cycle F))
  : list (@cycle F * gmap string (pyval F)) :=
  omap (fun c =>
          match fetched (fetch_position fetcher (net c) (fetch_now c)) with
          | Some d => Some (c, d)
          | None => None
          end) cycles.

(** The file [f] is the one [generate_stream] writes in the cycle [c] for
    the position [d] it fetched: in the output directory, named after the
    clock, holding [d] and the three enrichment keys besides. *)
Definition written_for (output_dir : string) (f : @file F)
    (cd : @cycle F * gmap string (pyval F)) : Prop :=
  file_dir f = output_dir
  /\ file_name f = "iss_data_" +:+ file_now cd.1 +:+ ".json"
  /\ cd.2 ⊆ file_content f
  /\ dom (file_content f) = dom cd.2 ∪ enrichment_keys.
End GeneratorVocabulary.

Section StreamingVocabulary.
Context {F : Type} `{PyFloat F}.
Import ISSSparkStreaming.

(** [process_stream] on one row. *)
Definition process_row (row : gmap string (@sqlval F)) : gmap string (@sqlval F) :=
  let row := <["event_time" := to_timestamp (col "timestamp") row]> row in
  let row := <["hemisphere_ns" :=
                 otherwise (when (col_ge (col "latitude") (lit_int 0)) (lit_str "North"))
                           (lit_str "South") row]> row in
  let row := <["hemisphere_ew" :=
                 otherwise (when (col_ge (col "longitude") (lit_int 0)) (lit_str "East"))
                           (lit_str "West") row]> row in
  let row := <["latitude" := spark_round_col (col "latitude") 4 row]> row in
  let row := <["longitude" := spark_round_col (col "longitude") 4 row]> row in
  let row := <["velocity_km_s" := spark_round_col (col "velocity_km_s") 4 row]> row in
  row.

(** The column is a double that is [>= 0]; false for null. *)
Definition ge_zero (v : option (@sqlval F)) : bool :=
  match v with
  | Some (SqlDouble x) => sql_ge x (of_int 0)
  | _ => false
  end.


(** The columns [process_stream] writes. *)
Definition touched_columns : gset string :=
  {[ "event_time"; "hemisphere_ns"; "hemisphere_ew";
     "latitude"; "longitude"; "velocity_km_s" ]}.
End StreamingVocabulary.

Section AggregatorVocabulary.
Context {F : Type} `{PyFloat F}.
Import WindowedAggregator.

(** What holds between the aggregator's state and everything emitted so
    far: open windows are aligned and not closed by the watermark, emitted
    ones are closed by it, and no window was emitted twice. *)
Definition emit_once_inv (s : @state F) (sent : list (@WindowStats F)) : Prop :=
  (forall k a, accumulators s !! k = Some a ->
               watermark s < k + window_size /\ k mod 60 = 0)
  /\ (forall w, w ∈ sent -> window_start w + window_size <= watermark s)
  /\ NoDup (map window_start sent).

(** What holds of a window's statistics when they are emitted in state [s]. *)
Definition emitted_when_closed (s : @state F) (w : @WindowStats F) : Prop :=
  window_end w = window_start w + 60
  /\ window_start w mod 60 = 0
  /\ window_end w <= watermark s
  /\ max_seen_event_time s = Some (watermark s + 10).
End AggregatorVocabulary.

Section ExactVocabulary.
Local Open Scope R_scope.

(** The cosine of the angle at the centre of the sphere between the points
    of latitude [phi] and longitude [lam], in radians (the spherical law of
    cosines). *)
Definition central_angle_cos (phi1 lam1 phi2 lam2 : R) : R :=
  sinR phi1 * sinR phi2
  + cosR phi1 * cosR phi2 * cosR (lam2 - lam1).

(** The great-circle distance in kilometres between two positions given
    in degrees, on a sphere of radius 6371: the radius times the central
    angle. *)
Definition great_circle_km (lat1 lon1 lat2 lon2 : R) : R :=
  6371 * acosR (central_angle_cos (lat1 * (PI / 180)) (lon1 * (PI / 180))
                                       (lat2 * (PI / 180)) (lon2 * (PI / 180))).
End ExactVocabulary.

(** * Properties *)

(** ** The sample source: bounded retry with exponential backoff *)

Section FetcherProperties.
Context {F : Type} `{PyFloat F}.
Import ISSDataFetcher.

Lemma fetch_loop_all_fail max net now remaining attempt :
  remaining = O \/ Z.of_nat (attempt + remaining) = max ->
  (forall k, (attempt <= k < attempt + remaining)%nat -> net k = RequestException) ->
  fetch_loop max net now remaining attempt
  = {| fetched := None; requests_made := remaining;
       sleeps := backoff attempt (remaining - 1) |}.
Proof.
  revert attempt.
  induction remaining as [|remaining IH]; intros attempt Hmax Hfail; [reflexivity|].
  destruct Hmax as [Hmax|Hmax]; [discriminate|].
  cbn [fetch_loop]. rewrite (Hfail attempt) by lia.
  destruct (Z.eqb_spec (Z.of_nat attempt) (max - 1)) as [Hlast|Hmore].
  - assert (remaining = O) as -> by lia. reflexivity.
  - destruct remaining as [|remaining]; [lia|].
    rewrite (IH (S attempt)).
    + cbn [fetched requests_made sleeps]. f_equal.
      replace (S (S remaining) - 1)%nat with (S (S remaining - 1)) by lia.
      reflexivity.
    + right. lia.
    + intros k Hk. apply Hfail. lia.
Qed.

Lemma fetch_loop_then_success max net now failures remaining attempt lat lon ts :
  (failures < remaining)%nat ->
  Z.of_nat (attempt + remaining) = max ->
  (forall k, (attempt <= k < attempt + failures)%nat -> net k = RequestException) ->
  net (attempt + failures)%nat = Response "success" lat lon ts ->
  fetch_loop max net now remaining attempt
  = {| fetched := Some (position_dict lat lon ts now);
       requests_made := S failures;
       sleeps := backoff attempt failures |}.
Proof.
  revert remaining attempt.
  induction failures as [|failures IH]; intros remaining attempt Hlt Hmax Hfail Hok.
  - destruct remaining as [|remaining]; [lia|].
    cbn [fetch_loop]. rewrite Nat.add_0_r in Hok. rewrite Hok. reflexivity.
  - destruct remaining as [|remaining]; [lia|].
    cbn [fetch_loop]. rewrite (Hfail attempt) by lia.
    destruct (Z.eqb_spec (Z.of_nat attempt) (max - 1)) as [Hlast|Hmore]; [lia|].
    rewrite (IH remaining (S attempt)).
    + reflexivity.
    + lia.
    + lia.
    + intros k Hk. apply Hfail. lia.
    + rewrite <- Hok. f_equal. lia.
Qed.

Lemma requests_made_le max net now remaining attempt :
  (requests_made (fetch_loop max net now remaining attempt) <= remaining)%nat.
Proof.
  revert attempt. induction remaining as [|remaining IH]; intros attempt; [reflexivity|].
  cbn [fetch_loop]. specialize (IH (S attempt)).
  destruct (net attempt) as [|message lat lon ts].
  - destruct (Z.of_nat attempt =? max - 1); cbn [requests_made]; lia.
  - destruct (String.eqb message "success"); cbn [requests_made]; lia.
Qed.

(** The waits of a call, whatever the network does: after each request
    that raised, except the last request made, [2 ^ attempt] seconds. *)
Lemma sleeps_after_failed_attempts max net now remaining attempt :
  remaining = O \/ Z.of_nat (attempt + remaining) = max ->
  sleeps (fetch_loop max net now remaining attempt)
  = map (fun k => 2 ^ Z.of_nat k)
        (List.filter (fun k => failed (net k))
           (seq attempt (requests_made (fetch_loop max net now remaining attempt) - 1))).
Proof.
  revert attempt. induction remaining as [|remaining IH]; intros attempt Hmax; [reflexivity|].
  destruct Hmax as [Hmax|Hmax]; [discriminate|].
  assert (Hrec : remaining = O \/ Z.of_nat (S attempt + remaining) = max).
  { destruct remaining; [by left|right; lia]. }
  specialize (IH (S attempt) Hrec).
  cbn [fetch_loop]. destruct (net attempt) as [|message lat lon ts] eqn:Enet.
  - destruct (Z.eqb_spec (Z.of_nat attempt) (max - 1)) as [Hlast|Hmore]; [reflexivity|].
    cbn [sleeps requests_made]. rewrite IH.
    destruct remaining as [|remaining]; [lia|].
    assert (Hpos : (1 <= requests_made
                     (fetch_loop max net now (S remaining) (S attempt)))%nat).
    { cbn [fetch_loop]. destruct (net (S attempt)).
      - destruct (Z.of_nat (S attempt) =? max - 1); cbn [requests_made]; lia.
      - destruct (String.eqb _ _); cbn [requests_made]; lia. }
    set (n := requests_made (fetch_loop max net now (S remaining) (S attempt))) in *.
    replace (S n - 1)%nat with (S (n - 1)) by lia.
    cbn [seq List.filter]. rewrite Enet. reflexivity.
  - destruct (String.eqb message "success"); [reflexivity|].
    cbn [sleeps requests_made]. rewrite IH.
    set (n := requests_made (fetch_loop max net now remaining (S attempt))).
    destruct n as [|n]; [reflexivity|].
    replace (S (S n) - 1)%nat with (S (S n - 1)) by lia.
    cbn [seq List.filter]. rewrite Enet. reflexivity.
Qed.

(** C7. [fetch_position] makes at most [max_retries] requests (3 by
    default), and its waits are [2 ^ attempt] seconds after each request
    that raised [RequestException], the last request made apart. When
    the first [failures] requests raise: if that is all [max_retries] of
    them it returns [None] after exactly [max_retries] requests and the
    waits [2^0, ..., 2^(max_retries - 2)]; if the next request succeeds
    it returns that position after the waits [2^0, ..., 2^(failures - 1)]. *)
Theorem fetch_position_retries_with_backoff
    (self : t) (net : nat -> attempt_outcome) (now : string) (failures : nat) :
  (failures <= Z.to_nat (max_retries self))%nat ->
  (forall k, (k < failures)%nat -> net k = RequestException) ->
  let r := fetch_position self net now in
  max_retries init_default = 3
  /\ (requests_made r <= Z.to_nat (max_retries self))%nat
  /\ sleeps r
     = map (fun k => 2 ^ Z.of_nat k)
           (List.filter (fun k => failed (net k)) (seq 0 (requests_made r - 1)))
  /\ (failures = Z.to_nat (max_retries self) ->
      fetched r = None
      /\ requests_made r = Z.to_nat (max_retries self)
      /\ sleeps r = backoff 0 (Z.to_nat (max_retries self) - 1))
  /\ (forall lat lon ts,
      (failures < Z.to_nat (max_retries self))%nat ->
      net failures = Response "success" lat lon ts ->
      fetched r = Some (position_dict lat lon ts now)
      /\ requests_made r = S failures
      /\ sleeps r = backoff 0 failures).
Proof.
  intros Hle Hfail r. subst r. unfold fetch_position.
  split; [reflexivity|]. split; [apply requests_made_le|]. split.
  { apply sleeps_after_failed_attempts.
    destruct (Z.to_nat (max_retries self)) eqn:E; [by left|right]. lia. }
  split.
  - intros ->. rewrite fetch_loop_all_fail.
    + auto.
    + destruct (Z.to_nat (max_retries self)) eqn:E; [by left|right]. lia.
    + intros k Hk. apply Hfail. lia.
  - intros lat lon ts Hlt Hok.
    rewrite (fetch_loop_then_success _ _ _ failures _ _ lat lon ts); auto.
    + lia.
    + intros k Hk. apply Hfail. lia.
Qed.


(** *** Which response is returned, and how long the call can sleep *)

Lemma fetch_loop_first_success max net now remaining attempt k lat lon ts :
  (k < remaining)%nat ->
  Z.of_nat (attempt + remaining) = max ->
  (forall j, (attempt <= j < attempt + k)%nat -> is_success (net j) = false) ->
  net (attempt + k)%nat = Response "success" lat lon ts ->
  fetched (fetch_loop max net now remaining attempt)
  = Some (position_dict lat lon ts now)
  /\ requests_made (fetch_loop max net now remaining attempt) = S k.
Proof.
  revert remaining attempt.
  induction k as [|k IH]; intros remaining attempt Hlt Hmax Hbefore Hok.
  - destruct remaining as [|remaining]; [lia|].
    cbn [fetch_loop]. rewrite Nat.add_0_r in Hok. by rewrite Hok.
  - destruct remaining as [|remaining]; [lia|].
    assert (Hrec : fetched (fetch_loop max net now remaining (S attempt))
                   = Some (position_dict lat lon ts now)
                   /\ requests_made (fetch_loop max net now remaining (S attempt)) = S k).
    { apply IH; [lia|lia| |].
      - intros j Hj. apply Hbefore. lia.
      - rewrite <- Hok. f_equal. lia. }
    destruct Hrec as [Hf Hr].
    cbn [fetch_loop]. pose proof (Hbefore attempt ltac:(lia)) as Hhere.
    destruct (net attempt) as [|message lat' lon' ts'].
    + destruct (Z.eqb_spec (Z.of_nat attempt) (max - 1)) as [Hlast|Hmore]; [lia|].
      cbn [fetched requests_made]. by rewrite Hf, Hr.
    + cbn [is_success] in Hhere. rewrite Hhere.
      cbn [fetched requests_made]. by rewrite Hf, Hr.
Qed.

Lemma fetch_loop_no_success max net now remaining attempt :
  remaining = O \/ Z.of_nat (attempt + remaining) = max ->
  (forall j, (attempt <= j < attempt + remaining)%nat -> is_success (net j) = false) ->
  fetched (fetch_loop max net now remaining attempt) = None
  /\ requests_made (fetch_loop max net now remaining attempt) = remaining.
Proof.
  revert attempt. induction remaining as [|remaining IH]; intros attempt Hmax Hnone;
    [done|].
  destruct Hmax as [Hmax|Hmax]; [discriminate|].
  assert (Hrec : fetched (fetch_loop max net now remaining (S attempt)) = None
                 /\ requests_made (fetch_loop max net now remaining (S attempt))
                    = remaining).
  { apply IH.
    - destruct remaining; [by left|right; lia].
    - intros j Hj. apply Hnone. lia. }
  destruct Hrec as [Hf Hr].
  cbn [fetch_loop]. pose proof (Hnone attempt ltac:(lia)) as Hhere.
  destruct (net attempt) as [|message lat lon ts].
  - destruct (Z.eqb_spec (Z.of_nat attempt) (max - 1)) as [Hlast|Hmore].
    + cbn [fetched requests_made]. split; [done|]. lia.
    + cbn [fetched requests_made]. by rewrite Hf, Hr.
  - cbn [is_success] in Hhere. rewrite Hhere.
    cbn [fetched requests_made]. by rewrite Hf, Hr.
Qed.

(** X1. [fetch_position] returns the position of the first request, among
    the [max_retries] it may make, that is answered with ['success'],
    whatever came before it (exceptions or other messages), and makes no
    request after that one. *)
Theorem fetch_position_returns_first_success
    (self : t) (net : nat -> attempt_outcome) (now : string)
    (k : nat) (lat lon : F) (ts : Z) :
  (k < Z.to_nat (max_retries self))%nat ->
  (forall j, (j < k)%nat -> is_success (net j) = false) ->
  net k = Response "success" lat lon ts ->
  fetched (fetch_position self net now) = Some (position_dict lat lon ts now)
  /\ requests_made (fetch_position self net now) = S k.
Proof.
  intros Hlt Hbefore Hok. unfold fetch_position.
  apply fetch_loop_first_success; [done|lia| |done].
  intros j Hj. apply Hbefore. lia.
Qed.

(** X2. [fetch_position] returns [None] exactly when none of the
    [max_retries] requests it may make is answered with ['success']; it
    has then made all of them (none when [max_retries <= 0]). *)
Theorem fetch_position_none_iff_no_success
    (self : t) (net : nat -> attempt_outcome) (now : string) :
  (fetched (fetch_position self net now) = None
   <-> forall j, (j < Z.to_nat (max_retries self))%nat -> is_success (net j) = false)
  /\ (fetched (fetch_position self net now) = None ->
      requests_made (fetch_position self net now) = Z.to_nat (max_retries self)).
Proof.
  assert (Hinv : Z.to_nat (max_retries self) = O
                 \/ Z.of_nat (0 + Z.to_nat (max_retries self)) = max_retries self).
  { destruct (Z.to_nat (max_retries self)) eqn:E; [by left|right; lia]. }
  assert (Hback : fetched (fetch_position self net now) = None ->
                  forall j, (j < Z.to_nat (max_retries self))%nat ->
                            is_success (net j) = false).
  { intros Hnone.
    (* a first success below the bound would be returned *)
    assert (Hind : forall n, (n <= Z.to_nat (max_retries self))%nat ->
                     forall j, (j < n)%nat -> is_success (net j) = false).
    { induction n as [|n IHn]; intros Hn j Hj; [lia|].
      destruct (decide (j = n)) as [->|Hne]; [|apply IHn; lia].
      destruct (is_success (net n)) eqn:Es; [|done].
      destruct (net n) as [|message lat lon ts] eqn:En; [done|].
      cbn [is_success] in Es. apply String.eqb_eq in Es. subst message.
      destruct (fetch_loop_first_success (max_retries self) net now
                  (Z.to_nat (max_retries self)) 0 n lat lon ts)
        as [Hsome _]; [lia|lia|intros; apply IHn; lia|done|].
      unfold fetch_position in Hnone. congruence. }
    intros j Hj. by apply (Hind (Z.to_nat (max_retries self))). }
  split; [split; [exact Hback|]|].
  - intros Hnone. unfold fetch_position.
    apply fetch_loop_no_success; [exact Hinv|]. intros j Hj. apply Hnone. lia.
  - intros Hnone. unfold fetch_position.
    apply fetch_loop_no_success; [exact Hinv|]. intros j Hj. apply Hback; [done|lia].
Qed.

Lemma total_sleep_backoff from n :
  total_sleep (backoff from n) = 2 ^ Z.of_nat (from + n) - 2 ^ Z.of_nat from.
Proof.
  revert from. induction n as [|n IH]; intros from.
  - cbn. rewrite Nat.add_0_r. lia.
  - unfold backoff, total_sleep in *. cbn [seq map foldr]. rewrite IH.
    replace (Z.of_nat (S from + n)) with (Z.of_nat (from + S n)) by lia.
    replace (Z.of_nat (S from)) with (Z.of_nat from + 1) by lia.
    rewrite Z.pow_add_r by lia. lia.
Qed.

Lemma total_sleep_filter (keep : nat -> bool) (l : list nat) :
  0 <= total_sleep (map (fun k => 2 ^ Z.of_nat k) (List.filter keep l))
    <= total_sleep (map (fun k => 2 ^ Z.of_nat k) l).
Proof.
  unfold total_sleep. induction l as [|k l IH]; [cbn; lia|].
  pose proof (Z.pow_nonneg 2 (Z.of_nat k) ltac:(lia)) as Hk.
  cbn [List.filter map foldr]. destruct (keep k); cbn [map foldr]; lia.
Qed.

(** X3. Whatever the network does, one call of [fetch_position] sleeps
    less than [2 ^ (max_retries - 1)] seconds in all (at most 3 seconds
    with the default of 3 attempts), and it does not sleep at all when no
    request raises [RequestException]: an answer whose message is not
    ['success'] is retried at once. *)
Theorem fetch_position_total_sleep_bounded
    (self : t) (net : nat -> attempt_outcome) (now : string) :
  0 <= total_sleep (sleeps (fetch_position self net now))
    <= 2 ^ Z.of_nat (Z.to_nat (max_retries self) - 1) - 1
  /\ (max_retries self = 3 -> total_sleep (sleeps (fetch_position self net now)) <= 3)
  /\ ((forall j, failed (net j) = false) -> sleeps (fetch_position self net now) = []).
Proof.
  assert (Hchar := sleeps_after_failed_attempts (max_retries self) net now
                     (Z.to_nat (max_retries self)) 0).
  assert (Hinv : Z.to_nat (max_retries self) = O
                 \/ Z.of_nat (0 + Z.to_nat (max_retries self)) = max_retries self).
  { destruct (Z.to_nat (max_retries self)) eqn:E; [by left|right; lia]. }
  specialize (Hchar Hinv). fold (fetch_position self net now) in Hchar.
  pose proof (requests_made_le (max_retries self) net now
                (Z.to_nat (max_retries self)) 0) as Hle.
  fold (fetch_position self net now) in Hle.
  set (r := fetch_position self net now) in *.
  assert (Hbound : 0 <= total_sleep (sleeps r)
                     <= 2 ^ Z.of_nat (Z.to_nat (max_retries self) - 1) - 1).
  { rewrite Hchar.
    pose proof (total_sleep_filter (fun k => failed (net k))
                  (seq 0 (requests_made r - 1))) as [H0 H1].
    pose proof (total_sleep_backoff 0 (requests_made r - 1)) as Hsum.
    unfold backoff in Hsum. rewrite Hsum in H1. cbn [Nat.add] in H1.
    assert (2 ^ Z.of_nat (requests_made r - 1)
            <= 2 ^ Z.of_nat (Z.to_nat (max_retries self) - 1))
      by (apply Z.pow_le_mono_r; lia).
    change (2 ^ Z.of_nat 0) with 1 in H1. lia. }
  split; [exact Hbound|]. split.
  - intros H3. rewrite H3 in Hbound.
    change (2 ^ Z.of_nat (Z.to_nat 3 - 1) - 1) with 3 in Hbound. lia.
  - intros Hnone. rewrite Hchar.
    assert (Hfilter : forall l, List.filter (fun k => failed (net k)) l = []).
    { induction l as [|k l IH]; [done|]. cbn [List.filter]. by rewrite Hnone. }
    by rewrite Hfilter.
Qed.
End FetcherProperties.

(** ** The enrichment stage *)

Section EnrichmentProperties.
Context {F : Type} `{PyFloat F}.
Import ISSDataFetcher ISSDataGenerator.

Lemma get_float_insert_ne (d : gmap string (pyval F)) k k' v :
  k <> k' -> get_float (<[k := v]> d) k' = get_float d k'.
Proof. intros Hne. unfold get_float. by rewrite lookup_insert_ne. Qed.

Lemma get_int_insert_ne (d : gmap string (pyval F)) k k' v :
  k <> k' -> get_int (<[k := v]> d) k' = get_int d k'.
Proof. intros Hne. unfold get_int. by rewrite lookup_insert_ne. Qed.

Lemma has_sample_insert (d : gmap string (pyval F)) k v lat lon ts :
  k <> "latitude" -> k <> "longitude" -> k <> "timestamp" ->
  has_sample d lat lon ts -> has_sample (<[k := v]> d) lat lon ts.
Proof.
  intros H1 H2 H3 (Hlat & Hlon & Hts). unfold has_sample.
  rewrite !get_float_insert_ne, get_int_insert_ne by done. auto.
Qed.

Lemma has_sample_position_dict lat lon ts now :
  has_sample (position_dict lat lon ts now) lat lon ts.
Proof.
  unfold has_sample, position_dict, get_float, get_int.
  repeat split; by simplify_map_eq.
Qed.

Lemma has_sample_truthy (d : gmap string (pyval F)) lat lon ts :
  has_sample d lat lon ts -> truthy (Some d) = true.
Proof.
  intros (Hlat & _). unfold truthy. rewrite bool_decide_eq_false_2; [done|].
  intros ->. unfold get_float in Hlat. by rewrite lookup_empty in Hlat.
Qed.

Lemma enrich_first self position lat lon ts :
  truthy (previous_position self) = false ->
  has_sample position lat lon ts ->
  enrich self position
  = Some (enriched self position "UNKNOWN" (of_decimal 0 1) lat lon).
Proof.
  intros Hprev (Hlat & Hlon & Hts). unfold enrich. rewrite Hprev.
  cbn [mbind option_bind].
  rewrite !get_float_insert_ne, Hlat, Hlon by done. cbn [mbind option_bind].
  unfold enriched. do 2 f_equal. by apply insert_insert_ne.
Qed.

Lemma enrich_next self prev position plat plon pts lat lon ts :
  previous_position self = Some prev ->
  has_sample prev plat plon pts ->
  has_sample position lat lon ts ->
  enrich self position
  = Some (enriched self position
            (if fgt lat plat then "ASCENDING" else "DESCENDING")
            (round (calculate_velocity plat plon lat lon (ts - pts)) 4)
            lat lon).
Proof.
  intros Hprev Hp (Hlat & Hlon & Hts). unfold enrich.
  rewrite Hprev, (has_sample_truthy _ _ _ _ Hp).
  destruct Hp as (Hplat & Hplon & Hpts).
  cbn [mbind option_bind]. rewrite Hlat, Hplat, Hplon, Hpts. cbn [mbind option_bind].
  destruct (fgt lat plat);
    rewrite !get_int_insert_ne, !get_float_insert_ne, Hts, Hlat, Hlon by done;
    cbn [mbind option_bind];
    rewrite !get_float_insert_ne, Hlat, Hlon by done; reflexivity.
Qed.

Lemma has_sample_enriched self position phase v lat lon ts :
  has_sample position lat lon ts ->
  has_sample (enriched self position phase v lat lon) lat lon ts.
Proof. intros Hs. unfold enriched. by repeat apply has_sample_insert. Qed.
End EnrichmentProperties.

(** ** Sessions of the generator *)

Section SessionProperties.
Context {F : Type} `{PyFloat F}.
Import ISSDataFetcher ISSDataGenerator.

Lemma distance_to_paris_haversine self lat lon :
  distance_to_paris self lat lon
  = round (haversine_distance lat lon (paris_lat self) (paris_lon self)) 2.
Proof. reflexivity. Qed.

Lemma fetched_cases max net now remaining attempt :
  fetched (fetch_loop max net now remaining attempt) = None
  \/ exists lat lon ts,
       fetched (fetch_loop max net now remaining attempt)
       = Some (position_dict lat lon ts now).
Proof.
  revert attempt. induction remaining as [|remaining IH]; intros attempt; [by left|].
  cbn [fetch_loop]. destruct (net attempt) as [|message lat lon ts].
  - destruct (Z.of_nat attempt =? max - 1); [by left|]. apply IH.
  - destruct (String.eqb message "success"); [right; eauto|]. apply IH.
Qed.

Lemma enriched_lookups self position phase v lat lon :
  enriched self position phase v lat lon !! "distance_to_paris_km"
  = Some (PyFloatV (distance_to_paris self lat lon))
  /\ enriched self position phase v lat lon !! "velocity_km_s" = Some (PyFloatV v)
  /\ enriched self position phase v lat lon !! "orbit_phase" = Some (PyStr phase).
Proof. unfold enriched. repeat split; by simplify_map_eq. Qed.

(** [enrich] never raises on a sample when the slot is empty or holds a
    sample, and its record is the one specified. *)
Lemma enrich_record_ok self position lat lon ts :
  prev_ok (previous_position self) ->
  has_sample position lat lon ts ->
  exists d,
    enrich self position = Some d
    /\ has_sample d lat lon ts
    /\ record_ok (paris_lat self) (paris_lon self) (previous_position self) d.
Proof.
  intros Hprev Hs.
  destruct (previous_position self) as [prev|] eqn:Eprev.
  - destruct Hprev as (plat & plon & pts & Hp).
    eexists. split; [by eapply enrich_next|].
    split; [by apply has_sample_enriched|].
    exists lat, lon, ts. split; [by apply has_sample_enriched|].
    rewrite <- distance_to_paris_haversine.
    edestruct enriched_lookups as (Hd & Hv & Ho).
    split; [exact Hd|]. exists plat, plon, pts. eauto.
  - eexists. split; [eapply enrich_first; [by rewrite Eprev|done]|].
    split; [by apply has_sample_enriched|].
    exists lat, lon, ts. split; [by apply has_sample_enriched|].
    rewrite <- distance_to_paris_haversine.
    edestruct enriched_lookups as (Hd & Hv & Ho).
    split; [exact Hd|]. eauto.
Qed.

(** One poll cycle: either nothing changes, or one record is appended,
    the counter advances by one and the slot holds that record. *)
Lemma poll_cycle_spec st c :
  prev_ok (previous_position (self st)) ->
  poll_cycle st c = Some st
  \/ exists d lat lon ts,
       has_sample d lat lon ts
       /\ record_ok (paris_lat (self st)) (paris_lon (self st))
            (previous_position (self st)) d
       /\ poll_cycle st c
          = Some {| self := set_previous_position (self st) d;
                    data_points := data_points st + 1;
                    files := files st ++
                      [{| file_dir := output_dir (self st);
                          file_name := "iss_data_" +:+ file_now c +:+ ".json";
                          file_content := d |}] |}.
Proof.
  intros Hprev. unfold poll_cycle.
  destruct (fetched_cases (max_retries (fetcher (self st))) (net c) (fetch_now c)
              (Z.to_nat (max_retries (fetcher (self st)))) 0)
    as [Hnone|(lat & lon & ts & Hsome)];
    unfold fetch_position.
  - rewrite Hnone. by left.
  - rewrite Hsome.
    pose proof (has_sample_position_dict lat lon ts (fetch_now c)) as Hs.
    rewrite (has_sample_truthy _ _ _ _ Hs). cbn [mbind option_bind].
    destruct (enrich_record_ok (self st) _ lat lon ts Hprev Hs) as (d & -> & Hd & Hok).
    cbn [mbind option_bind]. right. exists d, lat, lon, ts. auto.
Qed.

(** The run from any state whose slot is in order: it returns, and the
    records it appends are right one after the other, the first of them for
    the record the slot held. *)
Lemma run_cycles_spec cycles st :
  prev_ok (previous_position (self st)) ->
  exists st' new,
    run_cycles st cycles = Some st'
    /\ map file_content (files st') = map file_content (files st) ++ new
    /\ data_points st' = data_points st + Z.of_nat (length new)
    /\ session_ok (paris_lat (self st)) (paris_lon (self st))
         (previous_position (self st)) new.
Proof.
  revert st. induction cycles as [|c cycles IH]; intros st Hprev.
  - exists st, []. cbn. rewrite app_nil_r. repeat split. lia.
  - cbn [run_cycles].
    destruct (poll_cycle_spec st c Hprev) as [->|(d & lat & lon & ts & Hd & Hok & ->)];
      cbn [mbind option_bind].
    + apply IH, Hprev.
    + match goal with |- context [run_cycles ?s _] => set (st1 := s) end.
      destruct (IH st1) as (st' & new & Hrun & Hfiles & Hpoints & Hsession).
      { cbn. eauto. }
      exists st', (d :: new). split; [done|].
      rewrite Hfiles, Hpoints. subst st1. cbn [files data_points self] in *.
      rewrite map_app, <- app_assoc. cbn. repeat split; [lia|done|done].
Qed.

Lemma session_ok_lookup ref_lat ref_lon prior ds i d :
  session_ok ref_lat ref_lon prior ds ->
  ds !! i = Some d ->
  record_ok ref_lat ref_lon (match i with O => prior | S j => ds !! j end) d.
Proof.
  revert prior i. induction ds as [|d0 ds IH]; intros prior i Hok Hi; [done|].
  destruct Hok as [Hd0 Hds]. destruct i as [|i]; cbn in Hi.
  - by inversion Hi; subst.
  - specialize (IH (Some d0) i Hds Hi). destruct i as [|i]; exact IH.
Qed.

(** A session of a fresh generator returns, and its records are right one
    after the other, the first for an empty slot. *)
Lemma generate_stream_spec output_dir interval ref_lat ref_lon cycles :
  exists st,
    generate_stream (set_reference (init output_dir interval) ref_lat ref_lon) cycles
    = Some st
    /\ data_points st = Z.of_nat (length (files st))
    /\ session_ok ref_lat ref_lon None (map file_content (files st)).
Proof.
  unfold generate_stream.
  match goal with |- context [run_cycles ?s _] => set (st0 := s) end.
  destruct (run_cycles_spec cycles st0) as (st & new & Hrun & Hfiles & Hpoints & Hok);
    [done|].
  exists st. split; [done|]. cbn in Hfiles, Hpoints, Hok. subst new.
  rewrite Hpoints, length_map. by split.
Qed.

Lemma init_reference output_dir interval :
  set_reference (init output_dir interval) (of_decimal 488566 4) (of_decimal 23522 4)
  = init output_dir interval.
Proof. reflexivity. Qed.




(** C10. A poll cycle whose fetch returns [None] leaves the loop's state
    as it was: no file is added, [previous_position] (with the rest of
    the instance) and [data_points] keep their values. *)
Theorem poll_cycle_without_sample_changes_nothing (st : loop_state) (c : cycle) :
  fetched (fetch_position (fetcher (self st)) (net c) (fetch_now c)) = None ->
  poll_cycle st c = Some st
  /\ forall st',
       poll_cycle st c = Some st' ->
       files st' = files st
       /\ previous_position (self st') = previous_position (self st)
       /\ data_points st' = data_points st.
Proof.
  intros Hnone. unfold poll_cycle. rewrite Hnone. cbn.
  split; [done|]. by intros st' [= <-].
Qed.

(** *** Independence of the wall clock *)

Lemma agree_insert {V} (m1 m2 : gmap string V) k v :
  agree_but_fetch_time m1 m2 ->
  agree_but_fetch_time (<[k := v]> m1) (<[k := v]> m2).
Proof.
  intros Hm k' Hk'. destruct (decide (k = k')) as [->|Hne].
  - by rewrite !lookup_insert_eq.
  - rewrite !lookup_insert_ne by done. by apply Hm.
Qed.

Lemma agree_position_dict lat lon ts now1 now2 :
  agree_but_fetch_time (position_dict lat lon ts now1) (position_dict lat lon ts now2).
Proof.
  intros k Hk. unfold position_dict.
  rewrite !lookup_insert. repeat case_decide; congruence.
Qed.

Lemma agree_has_sample (d1 d2 : gmap string (pyval F)) lat lon ts :
  agree_but_fetch_time d1 d2 -> has_sample d1 lat lon ts -> has_sample d2 lat lon ts.
Proof.
  intros Hd (Hlat & Hlon & Hts). unfold has_sample, get_float, get_int in *.
  rewrite <- !Hd by done. auto.
Qed.

Lemma agree_enriched self1 self2 d1 d2 phase v lat lon :
  paris_lat self1 = paris_lat self2 ->
  paris_lon self1 = paris_lon self2 ->
  agree_but_fetch_time d1 d2 ->
  agree_but_fetch_time (enriched self1 d1 phase v lat lon)
                       (enriched self2 d2 phase v lat lon).
Proof.
  intros Hlat Hlon Hd. unfold enriched.
  rewrite !distance_to_paris_haversine, Hlat, Hlon.
  by repeat apply agree_insert.
Qed.

(** The fetch reads the clock for ['fetch_time'] only. *)
Lemma fetch_loop_clock max net1 net2 now1 now2 remaining attempt :
  (forall k, net1 k = net2 k) ->
  let r1 := fetch_loop max net1 now1 remaining attempt in
  let r2 := fetch_loop max net2 now2 remaining attempt in
  (fetched r1 = None /\ fetched r2 = None)
  \/ exists lat lon ts,
       fetched r1 = Some (position_dict lat lon ts now1)
       /\ fetched r2 = Some (position_dict lat lon ts now2).
Proof.
  intros Hnet. revert attempt.
  induction remaining as [|remaining IH]; intros attempt; [by left|].
  cbn [fetch_loop]. rewrite <- Hnet. destruct (net1 attempt) as [|message lat lon ts].
  - destruct (Z.of_nat attempt =? max - 1); [by left|]. apply IH.
  - destruct (String.eqb message "success"); [right; eauto|]. apply IH.
Qed.

Lemma enrich_clock self1 self2 d1 d2 lat lon ts :
  paris_lat self1 = paris_lat self2 ->
  paris_lon self1 = paris_lon self2 ->
  match previous_position self1, previous_position self2 with
  | None, None => True
  | Some p1, Some p2 =>
    agree_but_fetch_time p1 p2 /\ exists lat lon ts, has_sample p1 lat lon ts
  | _, _ => False
  end ->
  agree_but_fetch_time d1 d2 ->
  has_sample d1 lat lon ts ->
  exists e1 e2,
    enrich self1 d1 = Some e1 /\ enrich self2 d2 = Some e2
    /\ agree_but_fetch_time e1 e2 /\ has_sample e1 lat lon ts.
Proof.
  intros Hlat Hlon Hprev Hd Hs1.
  pose proof (agree_has_sample _ _ _ _ _ Hd Hs1) as Hs2.
  destruct (previous_position self1) as [p1|] eqn:E1,
           (previous_position self2) as [p2|] eqn:E2; try done.
  - destruct Hprev as (Hp & plat & plon & pts & Hp1).
    pose proof (agree_has_sample _ _ _ _ _ Hp Hp1) as Hp2.
    do 2 eexists. split; [by eapply enrich_next|]. split; [by eapply enrich_next|].
    split; [by apply agree_enriched|by apply has_sample_enriched].
  - do 2 eexists.
    split; [eapply enrich_first; [by rewrite E1|done]|].
    split; [eapply enrich_first; [by rewrite E2|done]|].
    split; [by apply agree_enriched|by apply has_sample_enriched].
Qed.

Lemma poll_cycle_clock st1 st2 c1 c2 :
  same_up_to_clock st1 st2 ->
  (forall k, net c1 k = net c2 k) ->
  exists st1' st2',
    poll_cycle st1 c1 = Some st1' /\ poll_cycle st2 c2 = Some st2'
    /\ same_up_to_clock st1' st2'.
Proof.
  intros (Hf & Hlat & Hlon & Hpoints & Hprev & Hfiles) Hnet.
  unfold poll_cycle, fetch_position. rewrite <- Hf.
  destruct (fetch_loop_clock (max_retries (fetcher (self st1))) _ _
              (fetch_now c1) (fetch_now c2)
              (Z.to_nat (max_retries (fetcher (self st1)))) 0 Hnet)
    as [[-> ->]|(lat & lon & ts & -> & ->)].
  - exists st1, st2. cbn. repeat split; done.
  - rewrite !(has_sample_truthy _ lat lon ts) by apply has_sample_position_dict.
    cbn [mbind option_bind].
    destruct (enrich_clock (self st1) (self st2) _ _ lat lon ts Hlat Hlon Hprev
                (agree_position_dict lat lon ts (fetch_now c1) (fetch_now c2))
                (has_sample_position_dict _ _ _ _))
      as (e1 & e2 & -> & -> & He & Hs).
    cbn [mbind option_bind]. do 2 eexists. split; [done|]. split; [done|].
    unfold same_up_to_clock. cbn.
    repeat split; try done; [lia|eauto|].
    apply Forall2_app; [done|]. by constructor.
Qed.

Lemma run_cycles_clock cycles1 cycles2 st1 st2 :
  Forall2 (fun c1 c2 => forall k, net c1 k = net c2 k) cycles1 cycles2 ->
  same_up_to_clock st1 st2 ->
  exists st1' st2',
    run_cycles st1 cycles1 = Some st1' /\ run_cycles st2 cycles2 = Some st2'
    /\ same_up_to_clock st1' st2'.
Proof.
  intros Hcycles. revert st1 st2.
  induction Hcycles as [|c1 c2 cycles1 cycles2 Hnet _ IH]; intros st1 st2 Hst.
  - by exists st1, st2.
  - cbn [run_cycles].
    destruct (poll_cycle_clock st1 st2 c1 c2 Hst Hnet) as (st1' & st2' & -> & -> & Hst').
    cbn [mbind option_bind]. by apply IH.
Qed.

(** *** What a session writes, and the state it leaves *)

Lemma position_dict_dom lat lon ts now :
  dom (position_dict lat lon ts now) = sample_keys.
Proof.
  unfold position_dict, sample_keys. rewrite !dom_insert_L, dom_empty_L.
  apply set_eq. intros k. set_unfold. tauto.
Qed.

Lemma enrichment_keys_not_sample k : k ∈ enrichment_keys -> k ∉ sample_keys.
Proof.
  unfold enrichment_keys, sample_keys. set_unfold.
  intros Hk Hs. destruct Hk as [[-> | ->] | ->]; intuition discriminate.
Qed.

Lemma enrichment_keys_elem :
  "orbit_phase" ∈ enrichment_keys
  /\ "velocity_km_s" ∈ enrichment_keys
  /\ "distance_to_paris_km" ∈ enrichment_keys.
Proof. unfold enrichment_keys. set_unfold. tauto. Qed.

Lemma enriched_extends self position phase v lat lon :
  dom position = sample_keys ->
  position ⊆ enriched self position phase v lat lon
  /\ dom (enriched self position phase v lat lon) = dom position ∪ enrichment_keys.
Proof.
  intros Hdom. unfold enriched.
  assert (Hfresh : forall k, k ∈ enrichment_keys -> position !! k = None).
  { intros k Hk. apply not_elem_of_dom. rewrite Hdom.
    by apply enrichment_keys_not_sample. }
  destruct enrichment_keys_elem as (Ho & Hv & Hd).
  split.
  - etrans; [|apply insert_subseteq].
    + etrans; [|apply insert_subseteq].
      * apply insert_subseteq. by apply Hfresh.
      * rewrite lookup_insert_ne by done. by apply Hfresh.
    + rewrite !lookup_insert_ne by done. by apply Hfresh.
  - rewrite !dom_insert_L. unfold enrichment_keys.
    apply set_eq. intros k. set_unfold. tauto.
Qed.

Lemma enrich_form self position lat lon ts :
  prev_ok (previous_position self) ->
  has_sample position lat lon ts ->
  exists phase v, enrich self position = Some (enriched self position phase v lat lon).
Proof.
  intros Hprev Hs. destruct (previous_position self) as [prev|] eqn:Eprev.
  - destruct Hprev as (plat & plon & pts & Hp). do 2 eexists. by eapply enrich_next.
  - do 2 eexists. eapply enrich_first; [by rewrite Eprev|done].
Qed.

(** One poll cycle, by what the fetch returned. *)
Lemma poll_cycle_cases st c :
  prev_ok (previous_position (self st)) ->
  match fetched (fetch_position (fetcher (self st)) (net c) (fetch_now c)) with
  | None => poll_cycle st c = Some st
  | Some d =>
    exists f,
      written_for (output_dir (self st)) f (c, d)
      /\ is_record (file_content f)
      /\ prev_ok (Some (file_content f))
      /\ poll_cycle st c
         = Some {| self := set_previous_position (self st) (file_content f);
                   data_points := data_points st + 1;
                   files := files st ++ [f] |}
  end.
Proof.
  intros Hprev. unfold poll_cycle, fetch_position.
  destruct (fetched_cases (max_retries (fetcher (self st))) (net c) (fetch_now c)
              (Z.to_nat (max_retries (fetcher (self st)))) 0)
    as [Hnone|(lat & lon & ts & Hsome)].
  - by rewrite Hnone.
  - rewrite Hsome.
    pose proof (has_sample_position_dict lat lon ts (fetch_now c)) as Hs.
    rewrite (has_sample_truthy _ _ _ _ Hs). cbn [mbind option_bind].
    destruct (enrich_form (self st) _ lat lon ts Hprev Hs) as (phase & v & ->).
    cbn [mbind option_bind].
    destruct (enriched_extends (self st) (position_dict lat lon ts (fetch_now c))
                phase v lat lon (position_dict_dom _ _ _ _)) as [Hsub Hdom].
    eexists {| file_dir := _; file_name := _; file_content := _ |}.
    split; [|split; [|split; [|reflexivity]]].
    + unfold written_for. cbn [file_dir file_name file_content fst snd]. auto.
    + cbn [file_content].
      by exists lat, lon, ts, (fetch_now c), phase, v,
                (distance_to_paris (self st) lat lon).
    + cbn. exists lat, lon, ts. by apply has_sample_enriched.
Qed.

(** The run from a state whose slot is in order: one file per successful
    fetch, in order; the counter advances by their number; the slot ends
    on the last record written; the rest of the instance is unchanged. *)
Lemma run_cycles_trace cycles st :
  prev_ok (previous_position (self st)) ->
  exists st' new,
    run_cycles st cycles = Some st'
    /\ files st' = files st ++ new
    /\ Forall2 (written_for (output_dir (self st))) new
         (successful_fetches (fetcher (self st)) cycles)
    /\ Forall (fun f => is_record (file_content f)) new
    /\ data_points st' = data_points st + Z.of_nat (length new)
    /\ previous_position (self st')
       = match last new with
         | Some f => Some (file_content f)
         | None => previous_position (self st)
         end
    /\ prev_ok (previous_position (self st'))
    /\ self st' = match last new with
                  | Some f => set_previous_position (self st) (file_content f)
                  | None => self st
                  end.
Proof.
  revert st. induction cycles as [|c cycles IH]; intros st Hprev.
  - exists st, []. cbn. rewrite app_nil_r. repeat split; try done. lia.
  - cbn [run_cycles successful_fetches omap list_omap].
    pose proof (poll_cycle_cases st c Hprev) as Hcase.
    destruct (fetched (fetch_position (fetcher (self st)) (net c) (fetch_now c)))
      as [d|] eqn:Ed.
    + destruct Hcase as (f & Hf & Hrec & Hok & ->). cbn [mbind option_bind].
      match goal with |- context [run_cycles ?s _] => set (st1 := s) end.
      destruct (IH st1 Hok)
        as (st' & new & Hrun & Hfiles & Hall & Hrecs & Hpoints & Hslot & Hok' & Hself).
      exists st', (f :: new). subst st1. cbn [files data_points self] in *.
      cbn [set_previous_position output_dir fetcher previous_position] in *.
      split; [done|]. split; [by rewrite Hfiles, <- app_assoc|].
      split; [by constructor|]. split; [by constructor|].
      split; [rewrite Hpoints; cbn [length]; lia|].
      split; [|split; [done|]].
      * rewrite Hslot. rewrite last_cons. by destruct (last new).
      * rewrite Hself. rewrite last_cons. by destruct (last new).
    + rewrite Hcase. cbn [mbind option_bind]. by apply IH.
Qed.

Lemma session_ok_never_unknown ref_lat ref_lon p (ds : list (gmap string (pyval F))) :
  session_ok ref_lat ref_lon (Some p) ds ->
  Forall (fun d => d !! "orbit_phase" = Some (PyStr "ASCENDING")
                   \/ d !! "orbit_phase" = Some (PyStr "DESCENDING")) ds.
Proof.
  revert p. induction ds as [|d ds IH]; intros p Hok; constructor.
  - destruct Hok as [(lat & lon & ts & _ & _ & plat & plon & pts & _ & Ho & _) _].
    rewrite Ho. destruct (fgt lat plat); auto.
  - destruct Hok as [_ Hok]. by eapply IH.
Qed.




(** X6. [previous_position] outlives the session: when [generate_stream]
    is called again on a generator whose first session wrote a record, the
    second session counts its data points from 0 again, its first record
    is enriched against the last record of the first session, and none of
    its records has [orbit_phase = "UNKNOWN"]. *)
Theorem second_session_continues_from_last_record
    (output_dir : string) (interval : Z) (cycles1 cycles2 : list cycle) :
  exists st1,
    generate_stream (init output_dir interval) cycles1 = Some st1
    /\ forall last1,
         last (files st1) = Some last1 ->
         exists st2,
           generate_stream (self st1) cycles2 = Some st2
           /\ data_points st2 = Z.of_nat (length (files st2))
           /\ (forall first2,
                 head (files st2) = Some first2 ->
                 record_ok (paris_lat (init output_dir interval))
                   (paris_lon (init output_dir interval))
                   (Some (file_content last1)) (file_content first2))
           /\ Forall (fun f =>
                        file_content f !! "orbit_phase" = Some (PyStr "ASCENDING")
                        \/ file_content f !! "orbit_phase" = Some (PyStr "DESCENDING"))
                     (files st2).
Proof.
  unfold generate_stream at 1.
  match goal with |- context [run_cycles ?s cycles1] => set (st0 := s) end.
  destruct (run_cycles_trace cycles1 st0)
    as (st1 & new & Hrun & Hfiles & _ & _ & _ & Hslot & Hok & Hself); [done|].
  exists st1. split; [done|]. intros last1 Hlast.
  cbn in Hfiles, Hslot, Hself. subst new. rewrite Hlast in Hslot, Hself.
  unfold generate_stream.
  match goal with |- context [run_cycles ?s cycles2] => set (st0' := s) end.
  destruct (run_cycles_spec cycles2 st0') as (st2 & new & Hrun2 & Hfiles2 & Hpoints & Hsession);
    [done|].
  exists st2. split; [done|]. cbn in Hfiles2, Hpoints, Hsession. subst new.
  rewrite Hslot in Hsession. rewrite Hself in Hsession. cbn in Hsession.
  split; [rewrite Hpoints, length_map; lia|]. split.
  - intros first2 Hfirst. destruct (files st2) as [|f fs]; [done|].
    cbn in Hfirst. injection Hfirst as ->. by destruct Hsession.
  - apply session_ok_never_unknown in Hsession.
    by apply Forall_fmap in Hsession.
Qed.
End SessionProperties.

(** ** The processing stage *)

Section StreamingProperties.
Context {F : Type} `{PyFloat F}.
Import ISSDataFetcher ISSDataGenerator ISSSparkStreaming.

Lemma process_stream_map df : process_stream df = map process_row df.
Proof.
  unfold process_stream, withColumn. rewrite !map_map. reflexivity.
Qed.

Lemma process_row_hemispheres row :
  process_row row !! "hemisphere_ns"
  = Some (SqlString (if ge_zero (row !! "latitude") then "North" else "South"))
  /\ process_row row !! "hemisphere_ew"
     = Some (SqlString (if ge_zero (row !! "longitude") then "East" else "West")).
Proof.
  unfold process_row. cbn zeta. split.
  - do 4 (rewrite lookup_insert_ne by done). rewrite lookup_insert_eq.
    unfold when, otherwise, col_ge, col, lit_int, lit_str, ge_zero.
    rewrite lookup_insert_ne by done.
    destruct (row !! "latitude") as [[| | x | | |]|]; cbn; try done.
    by destruct (sql_ge x (of_int 0)).
  - do 3 (rewrite lookup_insert_ne by done). rewrite lookup_insert_eq.
    unfold when, otherwise, col_ge, col, lit_int, lit_str, ge_zero.
    do 2 (rewrite lookup_insert_ne by done).
    destruct (row !! "longitude") as [[| | x | | |]|]; cbn; try done.
    by destruct (sql_ge x (of_int 0)).
Qed.


(** *** What [process_stream] changes in a row and what it leaves *)

Lemma process_row_columns (row : gmap string (@sqlval F)) :
  process_row row !! "event_time" = Some (to_timestamp (col "timestamp") row)
  /\ process_row row !! "latitude" = Some (spark_round_col (col "latitude") 4 row)
  /\ process_row row !! "longitude" = Some (spark_round_col (col "longitude") 4 row)
  /\ process_row row !! "velocity_km_s"
     = Some (spark_round_col (col "velocity_km_s") 4 row)
  /\ forall k, k ∉ touched_columns -> process_row row !! k = row !! k.
Proof.
  unfold process_row. cbn zeta. repeat split.
  - by repeat (rewrite lookup_insert_eq || rewrite lookup_insert_ne by done).
  - repeat (rewrite lookup_insert_eq || rewrite lookup_insert_ne by done).
    unfold spark_round_col, col.
    by repeat (rewrite lookup_insert_eq || rewrite lookup_insert_ne by done).
  - repeat (rewrite lookup_insert_eq || rewrite lookup_insert_ne by done).
    unfold spark_round_col, col.
    by repeat (rewrite lookup_insert_eq || rewrite lookup_insert_ne by done).
  - repeat (rewrite lookup_insert_eq || rewrite lookup_insert_ne by done).
    unfold spark_round_col, col.
    by repeat (rewrite lookup_insert_eq || rewrite lookup_insert_ne by done).
  - intros k Hk. unfold touched_columns in Hk. set_unfold.
    rewrite !lookup_insert_ne; [done|intros <-; intuition..].
Qed.

(** X7. [process_stream] returns one row for each row it is given, in the
    same order. It adds [event_time] (the [timestamp] column as a
    timestamp) and the two hemisphere columns, replaces [latitude],
    [longitude] and [velocity_km_s] by their values rounded to 4 decimals
    (null stays null), and leaves every other column of the row, such as
    [timestamp], [fetch_time], [altitude_km], [distance_to_paris_km] and
    [orbit_phase], exactly as it was. *)
Theorem process_stream_frame (df : list (gmap string (@sqlval F))) :
  length (process_stream df) = length df
  /\ Forall2
       (fun row out =>
          out !! "event_time" = Some (to_timestamp (col "timestamp") row)
          /\ out !! "latitude" = Some (spark_round_col (col "latitude") 4 row)
          /\ out !! "longitude" = Some (spark_round_col (col "longitude") 4 row)
          /\ out !! "velocity_km_s"
             = Some (spark_round_col (col "velocity_km_s") 4 row)
          /\ (forall k, k ∉ touched_columns -> out !! k = row !! k)
          /\ dom out = dom row ∪ touched_columns)
       df (process_stream df).
Proof.
  rewrite process_stream_map. split; [by rewrite length_map|].
  induction df as [|row df IH]; constructor; [|exact IH].
  destruct (process_row_columns row) as (He & Hlat & Hlon & Hv & Hframe).
  repeat (split; [done|]).
  unfold process_row. cbn zeta. rewrite !dom_insert_L. unfold touched_columns.
  apply set_eq. intros k. set_unfold. tauto.
Qed.

(** *** Rows of files that are not the generator's *)

Lemma read_row_dom (d : gmap string (pyval F)) :
  dom (read_row _define_schema d)
  = {[ "latitude"; "longitude"; "timestamp"; "fetch_time"; "altitude_km";
       "velocity_km_s"; "distance_to_paris_km"; "orbit_phase" ]}.
Proof.
  unfold read_row, _define_schema. cbn [foldr fst snd].
  rewrite !dom_insert_L, dom_empty_L. apply set_eq. intros k. set_unfold. tauto.
Qed.

Lemma read_row_lookup (d : gmap string (pyval F)) k ty :
  (k, ty) ∈ _define_schema ->
  read_row _define_schema d !! k = Some (from_json ty (d !! k)).
Proof.
  unfold read_row, _define_schema. cbn [foldr fst snd]. intros Hin.
  repeat (apply elem_of_cons in Hin as [[= -> ->]|Hin];
          [by repeat (rewrite lookup_insert_eq || rewrite lookup_insert_ne by done)|]).
  by apply elem_of_nil in Hin.
Qed.

(** X8. Whatever a JSON file holds, [read_stream] makes a row of it with
    exactly the eight columns of [_define_schema]: a key outside the
    schema is ignored, and a field the file lacks is a null column. Such a
    row is not dropped by [process_stream]: with no latitude it comes out
    with [hemisphere_ns = "South"] and a null [latitude], with no
    longitude with [hemisphere_ew = "West"], and with no timestamp with a
    null [event_time]. *)
Theorem read_stream_tolerates_any_file (d : gmap string (pyval F)) :
  dom (read_row _define_schema d)
  = {[ "latitude"; "longitude"; "timestamp"; "fetch_time"; "altitude_km";
       "velocity_km_s"; "distance_to_paris_km"; "orbit_phase" ]}
  /\ (forall k ty, (k, ty) ∈ _define_schema -> d !! k = None ->
        read_row _define_schema d !! k = Some SqlNull)
  /\ length (process_stream (read_stream [d])) = 1%nat
  /\ (forall out, out ∈ process_stream (read_stream [d]) ->
        (d !! "latitude" = None ->
           out !! "hemisphere_ns" = Some (SqlString "South")
           /\ out !! "latitude" = Some SqlNull)
        /\ (d !! "longitude" = None ->
              out !! "hemisphere_ew" = Some (SqlString "West")
              /\ out !! "longitude" = Some SqlNull)
        /\ (d !! "timestamp" = None -> out !! "event_time" = Some SqlNull)).
Proof.
  split; [apply read_row_dom|]. split.
  { intros k ty Hin Hnone. rewrite (read_row_lookup d k ty Hin), Hnone.
    by destruct ty. }
  split; [done|].
  intros out Hout. rewrite process_stream_map in Hout.
  unfold read_stream in Hout. cbn [map] in Hout.
  apply list_elem_of_singleton in Hout. subst out.
  destruct (process_row_hemispheres (read_row _define_schema d)) as [Hns Hew].
  destruct (process_row_columns (read_row _define_schema d)) as (He & Hlat & Hlon & _ & _).
  rewrite Hns, Hew, He, Hlat, Hlon.
  unfold spark_round_col, to_timestamp, col.
  rewrite (read_row_lookup d "latitude" DoubleType),
          (read_row_lookup d "longitude" DoubleType),
          (read_row_lookup d "timestamp" LongType)
    by (unfold _define_schema; repeat constructor).
  split; [|split]; intros ->; split; reflexivity || reflexivity.
Qed.

(** *** The queries [run_analysis] starts *)

Lemma string_app_inv_head (s a b : string) : s +:+ a = s +:+ b -> a = b.
Proof. induction s as [|c s IH]; cbn; [done|]. intros [= Heq]. by apply IH. Qed.

(** X9. [run_analysis] starts the processed-records query and the
    statistics query, and the console query only when asked; all in
    append mode and under three different names. For every output path
    the two file queries write to different directories and keep their
    checkpoints in different directories; the console query has neither
    option. *)
Theorem run_analysis_queries_do_not_collide
    (input_path output_path : string) (console_output : bool) :
  let queries := run_analysis input_path output_path console_output in
  length queries = (if console_output then 3 else 2)%nat
  /\ NoDup (map query_name queries)
  /\ Forall (fun q => query_mode q = "append") queries
  /\ (forall i j q1 q2 (key : string),
        queries !! i = Some q1 -> queries !! j = Some q2 -> i <> j ->
        key = "path" \/ key = "checkpointLocation" ->
        is_Some (query_options q1 !! key) ->
        query_options q1 !! key <> query_options q2 !! key)
  /\ (forall q, q ∈ queries -> query_format q = "console" ->
        query_options q !! "path" = None
        /\ query_options q !! "checkpointLocation" = None).
Proof.
  assert (Hpaths : output_path +:+ "/processed" <> output_path +:+ "/statistics").
  { intros Heq. by apply string_app_inv_head in Heq. }
  cbn zeta. unfold run_analysis. cbn zeta.
  split; [by destruct console_output|].
  split.
  { destruct console_output; cbn; apply NoDup_ListNoDup;
      repeat (constructor; [cbn; intuition discriminate|]); constructor. }
  split; [destruct console_output; by repeat constructor|].
  split.
  - intros i j q1 q2 key Hi Hj Hne Hkey Hsome.
    destruct console_output;
      repeat (destruct i as [|i]; [|try done]);
      repeat (destruct j as [|j]; [|try done]);
      try done;
      cbn in Hi, Hj; injection Hi as <-; injection Hj as <-;
      destruct Hkey as [-> | ->]; cbn in *;
      repeat (rewrite lookup_insert_eq || rewrite lookup_insert_ne by done);
      repeat (rewrite lookup_insert_eq in Hsome
              || rewrite lookup_insert_ne in Hsome by done);
      try (rewrite lookup_empty in Hsome; by destruct Hsome);
      try (intros [= Heq]; by (apply Hpaths || (symmetry in Heq; apply Hpaths)));
      try done.
  - intros q Hq Hfmt.
    destruct console_output; cbn in Hq; set_unfold;
      repeat (destruct Hq as [-> | Hq]; try done); subst; try done.
Qed.
End StreamingProperties.

(** ** The names of the files written *)

Section FileProperties.
Context {F : Type} `{PyFloat F}.
Import ISSDataFetcher ISSDataGenerator.




End FileProperties.

(** ** From the generator's files to the processed rows *)

Section PipelineProperties.
Context {F : Type} `{PyFloat F}.
Import ISSDataFetcher ISSDataGenerator ISSSparkStreaming.

Lemma agree_insert_fetch_time {V} (m1 m2 : gmap string V) v1 v2 :
  agree_but_fetch_time m1 m2 ->
  agree_but_fetch_time (<["fetch_time" := v1]> m1) (<["fetch_time" := v2]> m2).
Proof. intros Hm k Hk. rewrite !lookup_insert_ne by done. by apply Hm. Qed.

Lemma agree_read_row schema (d1 d2 : gmap string (pyval F)) :
  agree_but_fetch_time d1 d2 ->
  agree_but_fetch_time (read_row schema d1) (read_row schema d2).
Proof.
  intros Hd. induction schema as [|[name ty] schema IH]; [done|].
  cbn [read_row foldr fst snd]. destruct (decide (name = "fetch_time")) as [->|Hne].
  - by apply agree_insert_fetch_time.
  - rewrite (Hd name Hne). by apply agree_insert.
Qed.

Lemma agree_col (r1 r2 : gmap string (@sqlval F)) k :
  k <> "fetch_time" -> agree_but_fetch_time r1 r2 -> col k r1 = col k r2.
Proof. intros Hk Hr. unfold col. by rewrite (Hr k Hk). Qed.

Lemma agree_process_row (r1 r2 : gmap string (@sqlval F)) :
  agree_but_fetch_time r1 r2 ->
  agree_but_fetch_time (process_row r1) (process_row r2).
Proof.
  intros Hr. unfold process_row. cbn zeta.
  repeat
    match goal with
    | |- agree_but_fetch_time (<[?k := ?v1]> ?m1) (<[?k := ?v2]> ?m2) =>
      let Hm := fresh "Hm" in
      assert (Hm : agree_but_fetch_time m1 m2);
      [|replace v1 with v2;
        [by apply agree_insert
        |unfold to_timestamp, otherwise, when, col_ge, spark_round_col;
         by rewrite (agree_col m1 m2) by done]]
    end.
  exact Hr.
Qed.

(** *** Reading the generator's files with the job's schema *)




(** C9. Two sessions of a fresh generator that get the same answers from
    the network, under any two wall clocks, both return; their records
    agree pairwise on [velocity_km_s], [orbit_phase] and
    [distance_to_paris_km], indeed on every key but ['fetch_time'], and the
    rows processed from them have the same hemispheres. *)
Theorem enrichment_independent_of_wall_clock
    (output_dir : string) (interval : Z) (cycles1 cycles2 : list (@cycle F)) :
  Forall2 (fun c1 c2 => forall k, net c1 k = net c2 k) cycles1 cycles2 ->
  exists st1 st2,
    generate_stream (init output_dir interval) cycles1 = Some st1
    /\ generate_stream (init output_dir interval) cycles2 = Some st2
    /\ Forall2
         (fun d1 d2 =>
            d1 !! "velocity_km_s" = d2 !! "velocity_km_s"
            /\ d1 !! "orbit_phase" = d2 !! "orbit_phase"
            /\ d1 !! "distance_to_paris_km" = d2 !! "distance_to_paris_km"
            /\ forall k, k <> "fetch_time" -> d1 !! k = d2 !! k)
         (map file_content (files st1)) (map file_content (files st2))
    /\ Forall2
         (fun r1 r2 =>
            r1 !! "hemisphere_ns" = r2 !! "hemisphere_ns"
            /\ r1 !! "hemisphere_ew" = r2 !! "hemisphere_ew")
         (process_stream (read_stream (map file_content (files st1))))
         (process_stream (read_stream (map file_content (files st2)))).
Proof.
  intros Hcycles. unfold generate_stream.
  edestruct (run_cycles_clock cycles1 cycles2) as (st1 & st2 & Hrun1 & Hrun2 & Hst);
    [exact Hcycles| |].
  2: { exists st1, st2. split; [exact Hrun1|]. split; [exact Hrun2|].
       destruct Hst as (_ & _ & _ & _ & _ & Hfiles).
       rewrite !process_stream_map. unfold read_stream. rewrite !map_map.
       split.
       - apply Forall2_fmap. eapply Forall2_impl; [exact Hfiles|].
         intros f1 f2 Hf. cbn. repeat split; by apply Hf.
       - apply Forall2_fmap. eapply Forall2_impl; [exact Hfiles|].
         intros f1 f2 Hf. cbn.
         pose proof (agree_process_row _ _
                       (agree_read_row _define_schema _ _ Hf)) as Hp.
         split; by apply Hp. }
  unfold same_up_to_clock. cbn. repeat split; done.
Qed.
End PipelineProperties.

(** ** The windowed aggregator: emit once, and only when closed *)

Section AggregatorProperties.
Context {F : Type} `{PyFloat F}.
Import WindowedAggregator.

Lemma window_of_bounds t :
  window_of t <= t < window_of t + window_size /\ window_of t mod 60 = 0.
Proof.
  unfold window_of, window_size, ISSSparkStreaming.window_duration.
  pose proof (Z.div_mod t 60 ltac:(lia)) as Hdiv.
  pose proof (Z.mod_pos_bound t 60 ltac:(lia)) as Hmod.
  split; [lia|]. apply Z.mod_mul. lia.
Qed.

Lemma accumulate_lookup (accs : gmap Z (@accumulator F)) r k a :
  accumulate accs r !! k = Some a ->
  k = window_of (event_time r) \/ accs !! k = Some a.
Proof.
  unfold accumulate. intros Hk.
  destruct (decide (window_of (event_time r) = k)) as [<-|Hne]; [by left|right].
  destruct (accs !! window_of (event_time r)); by rewrite lookup_insert_ne in Hk.
Qed.

Lemma step_emit_once s r sent :
  emit_once_inv s sent ->
  emit_once_inv (step s r).1 (sent ++ (step s r).2)
  /\ Forall (emitted_when_closed (step s r).1) (step s r).2.
Proof.
  intros (Hopen & Hsent & Hnodup). unfold step. cbn [fst snd].
  set (t := event_time r).
  set (max_seen := match max_seen_event_time s with Some m => Z.max m t | None => t end).
  set (wm := Z.max (watermark s) (max_seen - allowed_lateness)).
  set (late := bool_decide (closed wm (window_of t))).
  set (accs := if late then accumulators s else accumulate (accumulators s) r).
  assert (Haccs : forall k a, accs !! k = Some a ->
            (~ closed wm k \/ accumulators s !! k = Some a) /\ k mod 60 = 0
            /\ (closed wm k -> exists a', accumulators s !! k = Some a')).
  { intros k a Hk. subst accs. destruct late eqn:Elate.
    - destruct (Hopen k a Hk) as [_ Hal]. eauto.
    - apply bool_decide_eq_false in Elate.
      destruct (accumulate_lookup _ _ _ _ Hk) as [->|Hold].
      + split; [by left|]. split; [apply window_of_bounds|]. intros Hc. by destruct Elate.
      + destruct (Hopen k a Hold) as [_ Hal]. eauto. }
  assert (Hwm : watermark s <= wm) by (subst wm; lia).
  assert (Hout : forall w,
            w ∈ map (fun kv => stats_of kv.1 kv.2)
                  (map_to_list (filter (fun kv => closed wm kv.1) accs)) ->
            exists k a, accs !! k = Some a /\ closed wm k /\ w = stats_of k a).
  { intros w Hw. apply list_elem_of_fmap in Hw as ([k a] & -> & Hka).
    apply elem_of_map_to_list, map_lookup_filter_Some in Hka as [Hka Hc].
    exists k, a. auto. }
  split; [split; [|split]|].
  - cbn [accumulators watermark]. intros k a Hk.
    apply map_lookup_filter_Some in Hk as [Hk Hc]. cbn in Hc.
    destruct (Haccs k a Hk) as (_ & Hal & _). unfold closed in Hc. split; [lia|done].
  - cbn [watermark]. intros w Hw. apply elem_of_app in Hw as [Hw|Hw].
    + specialize (Hsent w Hw). lia.
    + destruct (Hout w Hw) as (k & a & _ & Hc & ->). exact Hc.
  - rewrite map_app. apply NoDup_app. split; [exact Hnodup|]. split.
    + intros ws Hin1 Hin2.
      apply list_elem_of_fmap in Hin1 as (w1 & -> & Hw1).
      apply list_elem_of_fmap in Hin2 as (w2 & Heq & Hw2).
      destruct (Hout w2 Hw2) as (k & a & Hk & Hc & ->). cbn in Heq.
      destruct (Haccs k a Hk) as (_ & _ & Hold). destruct (Hold Hc) as [a' Ha'].
      destruct (Hopen k a' Ha') as [Hlt _]. specialize (Hsent w1 Hw1). lia.
    + rewrite map_map. cbn.
      apply (NoDup_fst_map_to_list (filter (fun kv => closed wm kv.1) accs)).
  - apply Forall_forall. intros w Hw.
    destruct (Hout w Hw) as (k & a & Hk & Hc & ->).
    destruct (Haccs k a Hk) as (_ & Hal & Hold). destruct (Hold Hc) as [a' Ha'].
    destruct (Hopen k a' Ha') as [Hlt _].
    unfold emitted_when_closed, closed in *.
    cbn [window_end window_start stats_of watermark max_seen_event_time].
    unfold window_size, allowed_lateness, ISSSparkStreaming.window_duration,
      ISSSparkStreaming.watermark_delay in *.
    repeat split; try done. f_equal. lia.
Qed.

Lemma run_emit_once records s sent :
  emit_once_inv s sent ->
  NoDup (map window_start (sent ++ emitted (run s records)))
  /\ Forall (fun so => Forall (emitted_when_closed so.1) so.2) (run s records).
Proof.
  revert s sent. induction records as [|r records IH]; intros s sent Hinv.
  - cbn. rewrite app_nil_r. split; [apply Hinv|constructor].
  - cbn [run]. destruct (step_emit_once s r sent Hinv) as [Hinv' Hout].
    destruct (IH _ _ Hinv') as [Hnodup Hall].
    unfold emitted in *. cbn [map concat fst snd] in *.
    rewrite app_assoc. split; [exact Hnodup|]. by constructor.
Qed.

(** C1. Records fall into aligned 60-second windows [[start, start + 60)]
    by event time, and the lateness allowed is 10 seconds. Over any run of
    the aggregator from its initial state, no window is emitted twice, and
    each window is emitted in a state whose watermark, the largest event
    time seen minus 10, has reached the window's end. *)
Theorem window_emitted_at_most_once_after_watermark
    (records : list (@EnrichedRecord F)) :
  let trace := run init records in
  window_size = 60
  /\ allowed_lateness = 10
  /\ (forall t, window_of t <= t < window_of t + window_size /\ window_of t mod 60 = 0)
  /\ NoDup (map window_start (emitted trace))
  /\ Forall (fun so => Forall (emitted_when_closed so.1) so.2) trace.
Proof.
  intros trace. split; [done|]. split; [done|]. split; [apply window_of_bounds|].
  apply (run_emit_once records init []).
  split; [|split].
  - intros k a Hk. cbn in Hk. by rewrite lookup_empty in Hk.
  - intros w Hw. by apply elem_of_nil in Hw.
  - constructor.
Qed.

(** The specification's scenario: event times 0, 10, 20, 50, 65 emit
    nothing; the record at 70 moves the watermark to 60 and the window
    [[0, 60)] is emitted with its 4 points. *)
Example scenario_window_closes_at_70 (lat lon v : F) :
  map (fun so => map (fun w => (window_start w, window_end w, data_points w)) so.2)
      (run init
         (map (fun t => {| event_time := t; latitude := lat;
                           longitude := lon; velocity_km_s := v |})
              [0; 10; 20; 50; 65; 70]))
  = [[]; []; []; []; []; [(0, 60, 4)]].
Proof. vm_compute. reflexivity. Qed.
End AggregatorProperties.

(** ** The haversine distance in exact arithmetic *)

Section ExactProperties.
Import ISSDataFetcher ISSDataGenerator Exact.
Local Open Scope R_scope.

Lemma powerRZ_2 (x : R) : powerRZ x 2 = x * x.
Proof. unfold powerRZ. change (Pos.to_nat 2) with 2%nat. simpl. ring. Qed.

Lemma haversine_term_sym (x y : R) :
  powerRZ (sinR ((x - y) / 2)) 2 = powerRZ (sinR ((y - x) / 2)) 2.
Proof.
  replace ((x - y) / 2) with (- ((y - x) / 2)) by lra.
  rewrite sin_neg, !powerRZ_2. ring.
Qed.

Lemma haversine_term_zero (x : R) :
  powerRZ (sinR ((x - x) / 2)) 2 = 0.
Proof.
  replace ((x - x) / 2) with 0 by lra. rewrite sin_0, powerRZ_2. ring.
Qed.

Lemma atan2_R_0_1 : atan2_R 0 1 = 0.
Proof.
  unfold atan2_R. destruct (Rlt_dec 0 1) as [_|Hn]; [|lra].
  replace (0 / 1) with 0 by lra. apply atan_0.
Qed.

Lemma Int_part_0 : Int_part 0 = 0%Z.
Proof. symmetry. apply Int_part_spec. simpl. lra. Qed.

Lemma nearest_even_0 : nearest_even 0 = 0%Z.
Proof.
  unfold nearest_even. rewrite Int_part_0.
  destruct (Rlt_dec (0 - 0) (1 / 2)) as [_|Hn]; [done|lra].
Qed.

Lemma round_R_0 ndigits : round_R 0 ndigits = 0.
Proof.
  unfold round_R. rewrite Rmult_0_l, nearest_even_0. unfold Rdiv. apply Rmult_0_l.
Qed.

Lemma haversine_distance_sym (lat1 lon1 lat2 lon2 : R) :
  haversine_distance lat1 lon1 lat2 lon2 = haversine_distance lat2 lon2 lat1 lon1.
Proof.
  unfold haversine_distance. cbn [fadd fsub fmul fdiv fpow radians sin cos sqrt
    atan2 of_int PyFloat_R].
  rewrite (haversine_term_sym (lat2 * (PI / 180)) (lat1 * (PI / 180))).
  rewrite (haversine_term_sym (lon2 * (PI / 180)) (lon1 * (PI / 180))).
  rewrite (Rmult_comm (cosR (lat1 * (PI / 180)))). reflexivity.
Qed.

Lemma haversine_distance_diag (lat lon : R) :
  haversine_distance lat lon lat lon = 0.
Proof.
  unfold haversine_distance. cbn [fadd fsub fmul fdiv fpow radians sin cos sqrt
    atan2 of_int PyFloat_R].
  rewrite !haversine_term_zero.
  rewrite Rmult_0_r, Rplus_0_r, Rminus_0_r, sqrt_0, sqrt_1, atan2_R_0_1. ring.
Qed.

Lemma sin_half_sqr (x : R) :
  sinR (x / 2) * sinR (x / 2) = (1 - cosR x) / 2.
Proof.
  replace (cosR x) with (cosR (2 * (x / 2))) by (f_equal; lra).
  rewrite cos_2a_sin. lra.
Qed.

Lemma cos_half_sqr (x : R) :
  cosR (x / 2) * cosR (x / 2) = (1 + cosR x) / 2.
Proof.
  replace (cosR x) with (cosR (2 * (x / 2))) by (f_equal; lra).
  rewrite cos_2a_cos. lra.
Qed.

Lemma haversine_term (phi1 lam1 phi2 lam2 : R) :
  sinR ((phi2 - phi1) / 2) * sinR ((phi2 - phi1) / 2)
  + cosR phi1 * cosR phi2
    * (sinR ((lam2 - lam1) / 2) * sinR ((lam2 - lam1) / 2))
  = (1 - central_angle_cos phi1 lam1 phi2 lam2) / 2.
Proof.
  rewrite !sin_half_sqr, cos_minus. unfold central_angle_cos. lra.
Qed.

Lemma central_angle_cos_bounds (phi1 lam1 phi2 lam2 : R) :
  -1 <= central_angle_cos phi1 lam1 phi2 lam2 <= 1.
Proof.
  unfold central_angle_cos. rewrite cos_minus.
  pose proof (sin2_cos2 phi1) as H1. pose proof (sin2_cos2 phi2) as H2.
  pose proof (sin2_cos2 lam1) as H3. pose proof (sin2_cos2 lam2) as H4.
  unfold Rsqr in *.
  set (s1 := sinR phi1) in *. set (c1 := cosR phi1) in *.
  set (s2 := sinR phi2) in *. set (c2 := cosR phi2) in *.
  set (sl1 := sinR lam1) in *. set (cl1 := cosR lam1) in *.
  set (sl2 := sinR lam2) in *. set (cl2 := cosR lam2) in *.
  assert (E1 : c1 * c1 * (sl1 * sl1 + cl1 * cl1) = c1 * c1) by (rewrite H3; ring).
  assert (E2 : c2 * c2 * (sl2 * sl2 + cl2 * cl2) = c2 * c2) by (rewrite H4; ring).
  pose proof (Rle_0_sqr (c1 * cl1 - c2 * cl2)) as P1.
  pose proof (Rle_0_sqr (c1 * sl1 - c2 * sl2)) as P2.
  pose proof (Rle_0_sqr (s1 - s2)) as P3.
  pose proof (Rle_0_sqr (c1 * cl1 + c2 * cl2)) as Q1.
  pose proof (Rle_0_sqr (c1 * sl1 + c2 * sl2)) as Q2.
  pose proof (Rle_0_sqr (s1 + s2)) as Q3.
  unfold Rsqr in *. split; nra.
Qed.

Lemma atan2_R_sin_cos (h : R) :
  0 <= h <= PI / 2 -> atan2_R (sinR h) (cosR h) = h.
Proof.
  intros [H0 H1]. unfold atan2_R.
  destruct (Rlt_dec 0 (cosR h)) as [Hpos|Hnpos].
  - assert (h < PI / 2).
    { destruct (Rle_lt_or_eq_dec _ _ H1) as [Hlt | ->]; [done|].
      rewrite cos_PI2 in Hpos. lra. }
    change (sinR h / cosR h) with (tanR h). apply atan_tan.
    pose proof PI_RGT_0. lra.
  - assert (h = PI / 2) as ->.
    { destruct (Rle_lt_or_eq_dec _ _ H1) as [Hlt|]; [|done].
      exfalso. apply Hnpos. apply cos_gt_0; pose proof PI_RGT_0; lra. }
    rewrite cos_PI2, sin_PI2.
    destruct (Rlt_dec 0 0); [lra|]. destruct (Rlt_dec 0 1); [done|lra].
Qed.

Lemma haversine_angle (phi1 lam1 phi2 lam2 : R) :
  let a := powerRZ (sinR ((phi2 - phi1) / 2)) 2
           + cosR phi1 * cosR phi2 * powerRZ (sinR ((lam2 - lam1) / 2)) 2 in
  2 * atan2_R (sqrtR a) (sqrtR (1 - a))
  = acosR (central_angle_cos phi1 lam1 phi2 lam2).
Proof.
  intros a. subst a. rewrite !powerRZ_2, haversine_term.
  set (C := central_angle_cos phi1 lam1 phi2 lam2).
  pose proof (central_angle_cos_bounds phi1 lam1 phi2 lam2) as HC. fold C in HC.
  pose proof (acos_bound C) as Hb. pose proof (cos_acos C HC) as Hcos.
  set (theta := acosR C) in *.
  assert (Hs : 0 <= sinR (theta / 2)) by (apply sin_ge_0; pose proof PI_RGT_0; lra).
  assert (Hc : 0 <= cosR (theta / 2)) by (apply cos_ge_0; pose proof PI_RGT_0; lra).
  replace ((1 - C) / 2) with (Rsqr (sinR (theta / 2)))
    by (unfold Rsqr; rewrite sin_half_sqr, Hcos; reflexivity).
  replace (1 - Rsqr (sinR (theta / 2))) with (Rsqr (cosR (theta / 2)))
    by (unfold Rsqr; rewrite sin_half_sqr, cos_half_sqr, Hcos; lra).
  rewrite !sqrt_Rsqr by done. rewrite atan2_R_sin_cos by lra. lra.
Qed.

(** X12. In exact arithmetic the distance that [calculate_velocity] and
    [distance_to_paris] compute with the haversine formula is the
    great-circle distance: the radius 6371 times the central angle given
    by the spherical law of cosines. *)
Lemma haversine_distance_great_circle (lat1 lon1 lat2 lon2 : R) :
  haversine_distance lat1 lon1 lat2 lon2 = great_circle_km lat1 lon1 lat2 lon2.
Proof.
  unfold haversine_distance, great_circle_km.
  cbn [fadd fsub fmul fdiv fpow radians sin cos sqrt atan2 of_int PyFloat_R].
  f_equal. apply haversine_angle.
Qed.

(** C5. In exact arithmetic the haversine distance computed by
    [calculate_velocity] and by [distance_to_paris] is symmetric in its
    two positions, and is 0 from a position to itself; so the velocity
    between two positions is the same in either direction. *)
Theorem haversine_symmetric_zero_on_diagonal (lat1 lon1 lat2 lon2 : R) :
  haversine_distance lat1 lon1 lat2 lon2 = haversine_distance lat2 lon2 lat1 lon1
  /\ haversine_distance lat1 lon1 lat1 lon1 = 0
  /\ (forall self : ISSDataGenerator.t,
        distance_to_paris (set_reference self lat2 lon2) lat1 lon1
        = distance_to_paris (set_reference self lat1 lon1) lat2 lon2
        /\ distance_to_paris (set_reference self lat1 lon1) lat1 lon1 = 0)
  /\ (forall time_diff,
        calculate_velocity lat1 lon1 lat2 lon2 time_diff
        = calculate_velocity lat2 lon2 lat1 lon1 time_diff).
Proof.
  split; [apply haversine_distance_sym|]. split; [apply haversine_distance_diag|]. split.
  - intros self. rewrite !distance_to_paris_haversine.
    cbn [paris_lat paris_lon set_reference]. split.
    + by rewrite haversine_distance_sym.
    + rewrite haversine_distance_diag. apply round_R_0.
  - intros time_diff. unfold calculate_velocity. by rewrite haversine_distance_sym.
Qed.

(** *** Bounds and special positions *)

Lemma haversine_distance_central_angle (lat1 lon1 lat2 lon2 : R) :
  haversine_distance lat1 lon1 lat2 lon2
  = 6371 * acosR (central_angle_cos (lat1 * (PI / 180)) (lon1 * (PI / 180))
                                    (lat2 * (PI / 180)) (lon2 * (PI / 180))).
Proof.
  unfold haversine_distance.
  cbn [fadd fsub fmul fdiv fpow radians sin cos sqrt atan2 of_int PyFloat_R].
  f_equal. apply haversine_angle.
Qed.

Lemma powerRZ_10_pos (n : Z) : 0 < powerRZ 10 n.
Proof. apply powerRZ_lt. lra. Qed.

Lemma Int_part_nonneg (r : R) : 0 <= r -> (0 <= Int_part r)%Z.
Proof.
  intros Hr. destruct (base_Int_part r) as [_ Hgt].
  assert (Hlt : IZR (-1) < IZR (Int_part r)) by (simpl; lra).
  apply lt_IZR in Hlt. lia.
Qed.

Lemma nearest_even_nonneg (x : R) : 0 <= x -> (0 <= nearest_even x)%Z.
Proof.
  intros Hx. pose proof (Int_part_nonneg x Hx) as Hn. unfold nearest_even.
  destruct (Rlt_dec _ _); [done|]. destruct (Rlt_dec _ _); [lia|].
  destruct (Z.even _); lia.
Qed.

Lemma round_R_nonneg (x : R) (ndigits : Z) : 0 <= x -> 0 <= round_R x ndigits.
Proof.
  intros Hx. unfold round_R. pose proof (powerRZ_10_pos ndigits) as Hpos.
  apply Rmult_le_pos; [|left; by apply Rinv_0_lt_compat].
  apply IZR_le, nearest_even_nonneg, Rmult_le_pos; lra.
Qed.

Lemma of_decimal_0_1 : of_decimal (F := R) 0 1 = 0.
Proof. cbn [of_decimal PyFloat_R]. unfold Rdiv. apply Rmult_0_l. Qed.

Lemma has_sample_unique (d : gmap string (pyval R)) lat lon ts lat' lon' ts' :
  has_sample d lat lon ts -> has_sample d lat' lon' ts' ->
  lat = lat' /\ lon = lon' /\ ts = ts'.
Proof. intros (?&?&?) (?&?&?). repeat split; congruence. Qed.

(** X13. In exact arithmetic the distance computed for two positions is
    never negative and never more than half the circumference of the
    sphere, [6371 * PI] km; so [calculate_velocity] never returns a
    negative velocity, returns at most [6371 * PI / time_diff] when
    [time_diff > 0], and [distance_to_paris] is never negative. *)
Theorem haversine_distance_bounds (lat1 lon1 lat2 lon2 : R) :
  0 <= haversine_distance lat1 lon1 lat2 lon2 <= 6371 * PI
  /\ (forall time_diff : Z,
        0 <= calculate_velocity lat1 lon1 lat2 lon2 time_diff
        /\ ((0 < time_diff)%Z ->
            calculate_velocity lat1 lon1 lat2 lon2 time_diff
            <= 6371 * PI / IZR time_diff))
  /\ (forall self : ISSDataGenerator.t,
        0 <= distance_to_paris (set_reference self lat2 lon2) lat1 lon1).
Proof.
  assert (Hd : 0 <= haversine_distance lat1 lon1 lat2 lon2 <= 6371 * PI).
  { rewrite haversine_distance_central_angle.
    pose proof (acos_bound (central_angle_cos (lat1 * (PI / 180)) (lon1 * (PI / 180))
                              (lat2 * (PI / 180)) (lon2 * (PI / 180)))) as Hb.
    split; nra. }
  split; [exact Hd|]. split.
  - intros time_diff. unfold calculate_velocity.
    destruct (Z.ltb_spec 0 time_diff) as [Hpos|Hnpos].
    + cbn [fdiv of_int PyFloat_R].
      assert (Ht : 0 < IZR time_diff) by (by apply IZR_lt).
      pose proof (Rinv_0_lt_compat _ Ht) as Hinv. unfold Rdiv. split.
      * apply Rmult_le_pos; lra.
      * intros _. apply Rmult_le_compat_r; lra.
    + rewrite of_decimal_0_1. split; [lra|lia].
  - intros self. rewrite distance_to_paris_haversine.
    cbn [paris_lat paris_lon set_reference]. apply round_R_nonneg, Hd.
Qed.

Lemma central_angle_cos_wrap (phi1 lam1 phi2 lam2 : R) :
  central_angle_cos phi1 (lam1 + 2 * PI) phi2 lam2
  = central_angle_cos phi1 lam1 phi2 lam2.
Proof.
  unfold central_angle_cos. do 2 f_equal.
  replace (lam2 - (lam1 + 2 * PI)) with ((lam2 - lam1) - 2 * PI) by lra.
  rewrite cos_minus, cos_2PI, sin_2PI. ring.
Qed.

(** X14. In exact arithmetic a longitude and the same longitude plus 360
    degrees give the same distances, so the meridians 180 and -180 are at
    distance 0 of each other at every latitude; and at a pole (latitude 90
    or -90) the longitude does not matter. *)
Theorem haversine_longitude_wraps_and_poles (lat1 lon1 lat2 lon2 : R) :
  haversine_distance lat1 (lon1 + 360) lat2 lon2 = haversine_distance lat1 lon1 lat2 lon2
  /\ haversine_distance lat1 (-180) lat1 180 = 0
  /\ haversine_distance 90 lon1 90 lon2 = 0
  /\ haversine_distance (-90) lon1 (-90) lon2 = 0.
Proof.
  rewrite !haversine_distance_central_angle. split; [|split; [|split]].
  - replace ((lon1 + 360) * (PI / 180)) with (lon1 * (PI / 180) + 2 * PI) by field.
    by rewrite central_angle_cos_wrap.
  - replace (180 * (PI / 180)) with (-180 * (PI / 180) + 2 * PI) by field.
    replace (central_angle_cos (lat1 * (PI / 180)) (-180 * (PI / 180))
               (lat1 * (PI / 180)) (-180 * (PI / 180) + 2 * PI)) with 1.
    + rewrite acos_1. ring.
    + unfold central_angle_cos.
      replace (-180 * (PI / 180) + 2 * PI - -180 * (PI / 180)) with (2 * PI) by lra.
      rewrite cos_2PI. pose proof (sin2_cos2 (lat1 * (PI / 180))) as Hsc.
      unfold Rsqr in Hsc. lra.
  - replace (central_angle_cos (90 * (PI / 180)) (lon1 * (PI / 180))
               (90 * (PI / 180)) (lon2 * (PI / 180))) with 1.
    + rewrite acos_1. ring.
    + unfold central_angle_cos. replace (90 * (PI / 180)) with (PI / 2) by field.
      rewrite sin_PI2, cos_PI2. ring.
  - replace (central_angle_cos (-90 * (PI / 180)) (lon1 * (PI / 180))
               (-90 * (PI / 180)) (lon2 * (PI / 180))) with 1.
    + rewrite acos_1. ring.
    + unfold central_angle_cos. replace (-90 * (PI / 180)) with (- (PI / 2)) by field.
      rewrite sin_neg, cos_neg, sin_PI2, cos_PI2. ring.
Qed.

(** X15. In exact arithmetic the largest distance the formula can give
    is reached: a position and its antipode (latitude negated, longitude
    moved by 180 degrees) are at distance [6371 * PI] km. *)
Theorem haversine_distance_antipode (lat lon : R) :
  haversine_distance lat lon (- lat) (lon + 180) = 6371 * PI.
Proof.
  rewrite haversine_distance_central_angle.
  replace (central_angle_cos (lat * (PI / 180)) (lon * (PI / 180))
             (- lat * (PI / 180)) ((lon + 180) * (PI / 180))) with (- (1)).
  - rewrite acos_opp, acos_1. ring.
  - unfold central_angle_cos.
    replace (- lat * (PI / 180)) with (- (lat * (PI / 180))) by ring.
    replace ((lon + 180) * (PI / 180) - lon * (PI / 180)) with PI by field.
    rewrite sin_neg, cos_neg, cos_PI.
    pose proof (sin2_cos2 (lat * (PI / 180))) as Hsc. unfold Rsqr in Hsc. lra.
Qed.

(** X16. In exact arithmetic a record whose position is the position of
    the record before it has [velocity_km_s = 0], whatever the two
    timestamps are. *)
Theorem same_position_gives_zero_velocity
    (output_dir : string) (interval : Z) (cycles : list (@cycle R)) :
  exists st,
    generate_stream (init output_dir interval) cycles = Some st
    /\ let records := map file_content (files st) in
       forall j prior cur lat lon pts ts,
         records !! j = Some prior ->
         records !! S j = Some cur ->
         has_sample prior lat lon pts ->
         has_sample cur lat lon ts ->
         cur !! "velocity_km_s" = Some (PyFloatV 0).
Proof.
  destruct (generate_stream_spec (F := R) output_dir interval
              (of_decimal 488566 4) (of_decimal 23522 4) cycles)
    as (st & Hrun & _ & Hok).
  rewrite init_reference in Hrun. exists st. split; [done|].
  intros records j prior cur lat lon pts ts Hj Hi Hp Hc. subst records.
  pose proof (session_ok_lookup _ _ _ _ _ _ Hok Hi) as (lat' & lon' & ts' & Hs & _ & Hrec).
  cbn beta iota in Hrec. rewrite Hj in Hrec.
  destruct Hrec as (plat & plon & pts' & Hp' & _ & Hv).
  destruct (has_sample_unique _ _ _ _ _ _ _ Hp Hp') as (<- & <- & <-).
  destruct (has_sample_unique _ _ _ _ _ _ _ Hc Hs) as (<- & <- & <-).
  rewrite Hv. do 2 f_equal. unfold calculate_velocity.
  rewrite haversine_distance_diag, of_decimal_0_1.
  destruct (0 <? ts - pts)%Z; cbn [round fdiv of_int PyFloat_R].
  - unfold Rdiv. rewrite Rmult_0_l. apply round_R_0.
  - apply round_R_0.
Qed.
(** *** Meridians, the equator, and the error of rounding *)

Lemma central_angle_cos_meridian (phi1 phi2 lam : R) :
  central_angle_cos phi1 lam phi2 lam = cosR (phi2 - phi1).
Proof.
  unfold central_angle_cos. replace (lam - lam) with 0 by lra.
  rewrite cos_0, cos_minus. ring.
Qed.

Lemma central_angle_cos_equator (lam1 lam2 : R) :
  central_angle_cos 0 lam1 0 lam2 = cosR (lam2 - lam1).
Proof. unfold central_angle_cos. rewrite sin_0, cos_0. ring. Qed.

Lemma acos_cos_Rabs (x : R) : Rabs x <= PI -> acosR (cosR x) = Rabs x.
Proof.
  intros Hx. unfold Rabs in *. destruct (Rcase_abs x) as [Hneg|Hpos].
  - rewrite <- cos_neg. apply acos_cos. lra.
  - apply acos_cos. lra.
Qed.

Lemma Rabs_degrees (x : R) : Rabs (x * (PI / 180)) = Rabs x * (PI / 180).
Proof.
  rewrite Rabs_mult. f_equal. apply Rabs_pos_eq. pose proof PI_RGT_0. lra.
Qed.

(** X17. In exact arithmetic two positions on one meridian whose
    latitudes differ by at most 180 degrees are at distance 6371 times
    that difference in radians, and so are two positions on the equator
    whose longitudes differ by at most 180 degrees. *)
Theorem haversine_along_meridian_and_equator (lat1 lat2 lon lon1 lon2 : R) :
  -180 <= lat2 - lat1 <= 180 ->
  -180 <= lon2 - lon1 <= 180 ->
  haversine_distance lat1 lon lat2 lon = 6371 * (Rabs (lat2 - lat1) * (PI / 180))
  /\ haversine_distance 0 lon1 0 lon2 = 6371 * (Rabs (lon2 - lon1) * (PI / 180)).
Proof.
  intros Hlat Hlon. pose proof PI_RGT_0 as Hpi.
  apply Rabs_le in Hlat. apply Rabs_le in Hlon.
  rewrite !haversine_distance_central_angle. split; f_equal.
  - rewrite central_angle_cos_meridian, <- Rmult_minus_distr_r, <- Rabs_degrees.
    apply acos_cos_Rabs. rewrite Rabs_degrees. nra.
  - replace (0 * (PI / 180)) with 0 by ring.
    rewrite central_angle_cos_equator, <- Rmult_minus_distr_r, <- Rabs_degrees.
    apply acos_cos_Rabs. rewrite Rabs_degrees. nra.
Qed.

Lemma nearest_even_error (x : R) : Rabs (IZR (nearest_even x) - x) <= 1 / 2.
Proof.
  unfold nearest_even. destruct (base_Int_part x) as [Hle Hgt].
  set (n := Int_part x) in *.
  assert (Hn1 : IZR (n + 1) = IZR n + 1) by (rewrite plus_IZR; reflexivity).
  unfold Rabs.
  destruct (Rlt_dec (x - IZR n) (1 / 2)) as [Hlt|Hnlt].
  - destruct (Rcase_abs _); lra.
  - destruct (Rlt_dec (1 / 2) (x - IZR n)) as [Hlt'|Hnlt'].
    + rewrite Hn1. destruct (Rcase_abs _); lra.
    + destruct (Z.even n); [|rewrite Hn1]; destruct (Rcase_abs _); lra.
Qed.

Lemma round_R_error (x : R) (ndigits : Z) :
  Rabs (round_R x ndigits - x) <= 1 / 2 / powerRZ 10 ndigits.
Proof.
  unfold round_R. pose proof (powerRZ_10_pos ndigits) as Hpos.
  set (p := powerRZ 10 ndigits) in *.
  replace (IZR (nearest_even (x * p)) / p - x)
    with ((IZR (nearest_even (x * p)) - x * p) * / p) by (field; lra).
  rewrite Rabs_mult, (Rabs_pos_eq (/ p)) by (left; by apply Rinv_0_lt_compat).
  unfold Rdiv at 1. apply Rmult_le_compat_r; [left; by apply Rinv_0_lt_compat|].
  apply nearest_even_error.
Qed.

Lemma powerRZ_10_2 : powerRZ 10 2 = 100.
Proof. rewrite powerRZ_2. lra. Qed.

Lemma powerRZ_10_4 : powerRZ 10 4 = 10000.
Proof. unfold powerRZ. change (Pos.to_nat 4) with 4%nat. simpl. lra. Qed.

(** X18. In exact arithmetic the two numbers a session of a fresh
    generator stores are the great-circle quantities up to their rounding:
    [distance_to_paris_km] is within 0.005 km of the great-circle distance
    from the sample to (48.8566, 2.3522), and when the timestamp has
    advanced [velocity_km_s] is within 0.00005 km/s of the great-circle
    distance from the record before divided by the seconds elapsed. *)
Theorem records_within_rounding_of_great_circle
    (output_dir : string) (interval : Z) (cycles : list (@cycle R)) :
  exists st,
    generate_stream (init output_dir interval) cycles = Some st
    /\ let records := map file_content (files st) in
       (forall i cur lat lon ts,
          records !! i = Some cur ->
          has_sample cur lat lon ts ->
          exists d,
            cur !! "distance_to_paris_km" = Some (PyFloatV d)
            /\ Rabs (d - great_circle_km lat lon (of_decimal 488566 4) (of_decimal 23522 4))
               <= 5 / 1000)
       /\ (forall j prior cur plat plon pts lat lon ts,
             records !! j = Some prior ->
             records !! S j = Some cur ->
             has_sample prior plat plon pts ->
             has_sample cur lat lon ts ->
             (pts < ts)%Z ->
             exists v,
               cur !! "velocity_km_s" = Some (PyFloatV v)
               /\ Rabs (v - great_circle_km plat plon lat lon / IZR (ts - pts))
                  <= 5 / 100000).
Proof.
  destruct (generate_stream_spec (F := R) output_dir interval
              (of_decimal 488566 4) (of_decimal 23522 4) cycles)
    as (st & Hrun & _ & Hok).
  rewrite init_reference in Hrun. exists st. split; [done|].
  intros records. subst records. split.
  - intros i cur lat lon ts Hi Hc.
    pose proof (session_ok_lookup _ _ _ _ _ _ Hok Hi) as (lat' & lon' & ts' & Hs & Hd & _).
    destruct (has_sample_unique _ _ _ _ _ _ _ Hc Hs) as (<- & <- & <-).
    eexists. split; [exact Hd|].
    rewrite haversine_distance_central_angle.
    fold (great_circle_km lat lon (of_decimal 488566 4) (of_decimal 23522 4)).
    cbn [round PyFloat_R].
    etransitivity; [apply round_R_error|]. rewrite powerRZ_10_2. lra.
  - intros j prior cur plat plon pts lat lon ts Hj Hi Hp Hc Hlt.
    pose proof (session_ok_lookup _ _ _ _ _ _ Hok Hi) as (lat' & lon' & ts' & Hs & _ & Hrec).
    cbn beta iota in Hrec. rewrite Hj in Hrec.
    destruct Hrec as (plat' & plon' & pts' & Hp' & _ & Hv).
    destruct (has_sample_unique _ _ _ _ _ _ _ Hp Hp') as (<- & <- & <-).
    destruct (has_sample_unique _ _ _ _ _ _ _ Hc Hs) as (<- & <- & <-).
    eexists. split; [exact Hv|]. unfold calculate_velocity.
    destruct (Z.ltb_spec 0 (ts - pts)) as [_|Hn]; [|lia].
    rewrite haversine_distance_central_angle. fold (great_circle_km plat plon lat lon).
    cbn [round fdiv of_int PyFloat_R].
    etransitivity; [apply round_R_error|]. rewrite powerRZ_10_4. lra.
Qed.
End ExactProperties.

(** ** Rounding twice, and the sign of a rounded coordinate *)

Section ExactPipelineProperties.
Import ISSDataFetcher ISSDataGenerator ISSSparkStreaming Exact.
Local Open Scope R_scope.

Lemma Int_part_IZR_half (k : Z) : Int_part (IZR k + 1 / 2) = k.
Proof. symmetry. apply Int_part_spec. lra. Qed.

Lemma nearest_half_up_IZR (k : Z) : nearest_half_up (IZR k) = k.
Proof.
  unfold nearest_half_up. destruct (Rle_dec 0 (IZR k)) as [Hk|Hk].
  - apply Int_part_IZR_half.
  - rewrite <- opp_IZR, Int_part_IZR_half. lia.
Qed.

Lemma spark_round_R_fixed (k n : Z) :
  spark_round_R (IZR k / powerRZ 10 n) n = IZR k / powerRZ 10 n.
Proof.
  unfold spark_round_R. pose proof (powerRZ_10_pos n) as Hpos.
  replace (IZR k / powerRZ 10 n * powerRZ 10 n) with (IZR k) by (field; lra).
  by rewrite nearest_half_up_IZR.
Qed.

Lemma spark_round_R_round_R (x : R) (n : Z) :
  spark_round_R (round_R x n) n = round_R x n.
Proof. unfold round_R. apply spark_round_R_fixed. Qed.

Lemma spark_round_R_sign (x : R) (n : Z) :
  (0 <= x -> 0 <= spark_round_R x n) /\ (x <= 0 -> spark_round_R x n <= 0).
Proof.
  pose proof (powerRZ_10_pos n) as Hpos.
  pose proof (Rinv_0_lt_compat _ Hpos) as Hinv.
  unfold spark_round_R, nearest_half_up, Rdiv. split; intros Hx.
  - assert (Hy : 0 <= x * powerRZ 10 n) by (apply Rmult_le_pos; lra).
    destruct (Rle_dec 0 (x * powerRZ 10 n)) as [_|Hn]; [|lra].
    apply Rmult_le_pos; [|lra]. apply IZR_le, Int_part_nonneg. lra.
  - assert (Hy : x * powerRZ 10 n <= 0) by nra.
    destruct (Rle_dec 0 (x * powerRZ 10 n)) as [H0|Hn].
    + assert (Hz : x * powerRZ 10 n = 0) by lra. rewrite Hz, Rplus_0_l.
      replace (Int_part (1 * / 2)) with 0%Z; [lra|].
      apply Int_part_spec. simpl. lra.
    + assert (Hp : (0 <= Int_part (- (x * powerRZ 10 n) + 1 / 2))%Z)
        by (apply Int_part_nonneg; lra).
      apply IZR_le in Hp. rewrite opp_IZR. simpl in Hp. nra.
Qed.

Lemma read_row_velocity (d : gmap string (pyval R)) :
  read_row _define_schema d !! "velocity_km_s"
  = Some (from_json DoubleType (d !! "velocity_km_s")).
Proof.
  unfold read_row, _define_schema. cbn [foldr fst snd].
  by repeat (rewrite lookup_insert_eq || rewrite lookup_insert_ne by done).
Qed.

Lemma session_ok_velocity_rounded ref_lat ref_lon prior
    (ds : list (gmap string (pyval R))) :
  session_ok ref_lat ref_lon prior ds ->
  Forall (fun d => exists x, d !! "velocity_km_s" = Some (PyFloatV (round_R x 4))) ds.
Proof.
  revert prior. induction ds as [|d ds IH]; intros prior Hok; constructor.
  - destruct Hok as [(lat & lon & ts & _ & _ & Hrec) _]. destruct prior as [p|].
    + destruct Hrec as (plat & plon & pts & _ & _ & Hv). eauto.
    + destruct Hrec as [Hv _]. exists 0. rewrite Hv, of_decimal_0_1.
      by rewrite round_R_0.
  - destruct Hok as [_ Hok]. by eapply IH.
Qed.

(** X19. In exact arithmetic the second rounding does no harm: the
    velocity that [generate_stream] rounded to 4 decimals (ties to even)
    is not changed when [process_stream] rounds it to 4 decimals again
    (ties away from zero); the processed row carries the velocity of the
    record. *)
Theorem velocity_survives_second_rounding
    (output_dir : string) (interval : Z) (cycles : list (@cycle R)) :
  exists st,
    generate_stream (init output_dir interval) cycles = Some st
    /\ Forall2
         (fun d out =>
            exists v, d !! "velocity_km_s" = Some (PyFloatV v)
                      /\ out !! "velocity_km_s" = Some (SqlDouble v))
         (map file_content (files st))
         (process_stream (read_stream (map file_content (files st)))).
Proof.
  destruct (generate_stream_spec (F := R) output_dir interval
              (of_decimal 488566 4) (of_decimal 23522 4) cycles)
    as (st & Hrun & _ & Hok).
  rewrite init_reference in Hrun. exists st. split; [done|].
  apply session_ok_velocity_rounded in Hok.
  rewrite process_stream_map. unfold read_stream. rewrite map_map.
  induction Hok as [|d ds (x & Hx) _ IH]; constructor; [|exact IH].
  exists (round_R x 4). split; [done|].
  destruct (process_row_columns (read_row _define_schema d)) as (_ & _ & _ & Hv & _).
  rewrite Hv. unfold spark_round_col, col. rewrite read_row_velocity, Hx.
  cbn -[round_R spark_round_R]. by rewrite spark_round_R_round_R.
Qed.

(** X20. In exact arithmetic the hemisphere of a processed row never
    contradicts the sign of its rounded coordinate: with ["North"] (or
    ["East"]) the rounded latitude (longitude) is [>= 0], and with
    ["South"] (["West"]) it is [<= 0]. It can be 0 with ["South"]: a small
    negative latitude is South and rounds to 0. *)
Theorem hemisphere_agrees_with_rounded_sign (df : list (gmap string (@sqlval R))) :
  Forall2
    (fun row out =>
       (forall x, row !! "latitude" = Some (SqlDouble x) ->
          exists y, out !! "latitude" = Some (SqlDouble y)
                    /\ (out !! "hemisphere_ns" = Some (SqlString "North") -> 0 <= y)
                    /\ (out !! "hemisphere_ns" = Some (SqlString "South") -> y <= 0))
       /\ (forall x, row !! "longitude" = Some (SqlDouble x) ->
             exists y, out !! "longitude" = Some (SqlDouble y)
                       /\ (out !! "hemisphere_ew" = Some (SqlString "East") -> 0 <= y)
                       /\ (out !! "hemisphere_ew" = Some (SqlString "West") -> y <= 0)))
    df (process_stream df).
Proof.
  rewrite process_stream_map. induction df as [|row df IH]; constructor; [|exact IH].
  destruct (process_row_hemispheres row) as [Hns Hew].
  destruct (process_row_columns row) as (_ & Hlat & Hlon & _ & _).
  split; intros x Hx; exists (spark_round_R x 4).
  - rewrite Hlat, Hns. unfold spark_round_col, col, ge_zero. rewrite Hx.
    cbn -[spark_round_R Rge_dec].
    destruct (spark_round_R_sign x 4) as [Hpos Hneg].
    split; [done|]. destruct (Rge_dec x 0) as [Hge|Hlt]; split; intros Heq; try done.
    + apply Hpos. lra.
    + apply Hneg. lra.
  - rewrite Hlon, Hew. unfold spark_round_col, col, ge_zero. rewrite Hx.
    cbn -[spark_round_R Rge_dec].
    destruct (spark_round_R_sign x 4) as [Hpos Hneg].
    split; [done|]. destruct (Rge_dec x 0) as [Hge|Hlt]; split; intros Heq; try done.
    + apply Hpos. lra.
    + apply Hneg. lra.
Qed.
End ExactPipelineProperties.

(** ** The distance to the reference coordinate *)

Section ReferenceDistance.
Import ISSDataFetcher ISSDataGenerator.


End ReferenceDistance.

(** ** Instances of the conditional statements *)

Import Exact.

(** With the default configuration and a network that is down: three
    requests, waits of 1 and 2 seconds, no sample. *)
Lemma fetch_position_retries_with_backoff_witness :
  let r := ISSDataFetcher.fetch_position (F := R)
             ISSDataFetcher.init_default
             (fun _ => ISSDataFetcher.RequestException) "t" in
  ISSDataFetcher.max_retries ISSDataFetcher.init_default = 3
  /\ (ISSDataFetcher.requests_made r <= 3)%nat
  /\ ISSDataFetcher.sleeps r = [1; 2]
  /\ (3%nat = 3%nat ->
      ISSDataFetcher.fetched r = None
      /\ ISSDataFetcher.requests_made r = 3%nat
      /\ ISSDataFetcher.sleeps r = [1; 2])
  /\ (forall lat lon ts,
      (3 < 3)%nat ->
      ISSDataFetcher.RequestException = ISSDataFetcher.Response "success" lat lon ts ->
      ISSDataFetcher.fetched r = Some (ISSDataFetcher.position_dict lat lon ts "t")
      /\ ISSDataFetcher.requests_made r = 4%nat
      /\ ISSDataFetcher.sleeps r = backoff 0 3).
Proof.
  apply (fetch_position_retries_with_backoff (F := R)
           ISSDataFetcher.init_default
           (fun _ => ISSDataFetcher.RequestException) "t" 3).
  - vm_compute. lia.
  - reflexivity.
Defined.

(** The network is down for a whole poll cycle of a fresh generator. *)
Lemma poll_cycle_without_sample_changes_nothing_witness :
  let st := {| ISSDataGenerator.self := ISSDataGenerator.init (F := R) "raw" 5;
               ISSDataGenerator.data_points := 0;
               ISSDataGenerator.files := [] |} in
  let c := {| ISSDataGenerator.net := fun _ => ISSDataFetcher.RequestException;
              ISSDataGenerator.fetch_now := "2024-01-01T00:00:00";
              ISSDataGenerator.file_now := "20240101_000000_000000" |} in
  ISSDataGenerator.poll_cycle st c = Some st
  /\ forall st',
       ISSDataGenerator.poll_cycle st c = Some st' ->
       ISSDataGenerator.files st' = ISSDataGenerator.files st
       /\ ISSDataGenerator.previous_position (ISSDataGenerator.self st')
          = ISSDataGenerator.previous_position (ISSDataGenerator.self st)
       /\ ISSDataGenerator.data_points st' = ISSDataGenerator.data_points st.
Proof.
  intros st c.
  apply (poll_cycle_without_sample_changes_nothing st c).
  reflexivity.
Defined.

(** One poll cycle answered with the same position, read under two
    different clocks. *)
Lemma enrichment_independent_of_wall_clock_witness :
  let answer := fun _ : nat =>
    ISSDataFetcher.Response "success" (IZR 10) (IZR 20) 1700000000 in
  let c1 := {| ISSDataGenerator.net := answer;
               ISSDataGenerator.fetch_now := "2024-01-01T00:00:00";
               ISSDataGenerator.file_now := "20240101_000000_000000" |} in
  let c2 := {| ISSDataGenerator.net := answer;
               ISSDataGenerator.fetch_now := "2031-05-05T12:00:00";
               ISSDataGenerator.file_now := "20310505_120000_000000" |} in
  exists st1 st2,
    ISSDataGenerator.generate_stream (ISSDataGenerator.init "raw" 5) [c1] = Some st1
    /\ ISSDataGenerator.generate_stream (ISSDataGenerator.init "raw" 5) [c2] = Some st2
    /\ Forall2
         (fun d1 d2 : gmap string (pyval R) =>
            d1 !! "velocity_km_s" = d2 !! "velocity_km_s"
            /\ d1 !! "orbit_phase" = d2 !! "orbit_phase"
            /\ d1 !! "distance_to_paris_km" = d2 !! "distance_to_paris_km"
            /\ forall k, k <> "fetch_time" -> d1 !! k = d2 !! k)
         (map ISSDataGenerator.file_content (ISSDataGenerator.files st1))
         (map ISSDataGenerator.file_content (ISSDataGenerator.files st2))
    /\ Forall2
         (fun r1 r2 : gmap string (@ISSSparkStreaming.sqlval R) =>
            r1 !! "hemisphere_ns" = r2 !! "hemisphere_ns"
            /\ r1 !! "hemisphere_ew" = r2 !! "hemisphere_ew")
         (ISSSparkStreaming.process_stream
            (ISSSparkStreaming.read_stream
               (map ISSDataGenerator.file_content (ISSDataGenerator.files st1))))
         (ISSSparkStreaming.process_stream
            (ISSSparkStreaming.read_stream
               (map ISSDataGenerator.file_content (ISSDataGenerator.files st2)))).
Proof.
  intros answer c1 c2.
  apply (enrichment_independent_of_wall_clock "raw" 5 [c1] [c2]).
  constructor; [reflexivity|constructor].
Defined.

(** The first request raises, the second is answered with another
    message, the third with ['success']: the third answer is returned. *)
Lemma fetch_position_returns_first_success_witness :
  let net := fun attempt : nat =>
    match attempt with
    | O => ISSDataFetcher.RequestException
    | S O => ISSDataFetcher.Response "failure" (IZR 0) (IZR 0) 0
    | _ => ISSDataFetcher.Response "success" (IZR 10) (IZR 20) 1700000000
    end in
  let r := ISSDataFetcher.fetch_position ISSDataFetcher.init_default net "t" in
  ISSDataFetcher.fetched r
  = Some (ISSDataFetcher.position_dict (IZR 10) (IZR 20) 1700000000 "t")
  /\ ISSDataFetcher.requests_made r = 3%nat.
Proof.
  intros net r.
  apply (fetch_position_returns_first_success (F := R)
           ISSDataFetcher.init_default net "t" 2 (IZR 10) (IZR 20) 1700000000).
  - vm_compute. lia.
  - intros [|[|j]] Hj; [reflexivity|reflexivity|lia].
  - reflexivity.
Defined.

(** Two samples 0.09 degrees of latitude apart on the meridian 0, and two
    samples 1 degree of longitude apart on the equator. *)
Lemma haversine_along_meridian_and_equator_witness :
  (ISSDataFetcher.haversine_distance (F := R) 0 0 (9 / 100) 0
   = 6371 * (Rabs (9 / 100 - 0) * (PI / 180))
   /\ ISSDataFetcher.haversine_distance (F := R) 0 0 0 1
      = 6371 * (Rabs (1 - 0) * (PI / 180)))%R.
Proof.
  apply (haversine_along_meridian_and_equator 0 (9 / 100) 0 0 1); lra.
Defined.
